(** * parallel.py: the log validator of the parallel-sources benchmark

    A shallow embedding of [main] and [parse] of [parallel.py] and the
    properties of the validation pass.

    Python values are modelled as follows.
    - [int] is unbounded: [Z].
    - [str] is [string], read as a sequence of code points below 256.
    - [defaultdict(int)] is an association list in insertion order (module
      [DefaultDict]); reading a missing key inserts it with value 0.
    - [print] appends one [output] event per call to standard output.
    - an exception that nothing catches ends the run: [Uncaught]. *)

From Stdlib Require Import ZArith List String Ascii Bool Lia.
From Stdlib Require Import Permutation Sorted.
Import ListNotations.

Open Scope string_scope.
Open Scope list_scope.
Open Scope Z_scope.

(** ** The string methods the program calls *)

Module PyStr.

(** [s.startswith(m)] *)
Fixpoint startswith (m s : string) : bool :=
  match m, s with
  | EmptyString, _ => true
  | String a m', String b s' => Ascii.eqb a b && startswith m' s'
  | String _ _, EmptyString => false
  end.

(** [m in s]: [m] occurs in [s] as a substring. *)
Fixpoint contains (m s : string) : bool :=
  startswith m s ||
  match s with
  | EmptyString => false
  | String _ s' => contains m s'
  end.

(** [s[n:]]: the slice is empty when [s] is shorter than [n]. *)
Fixpoint slice_from (n : nat) (s : string) : string :=
  match n, s with
  | O, _ => s
  | S _, EmptyString => EmptyString
  | S n', String _ s' => slice_from n' s'
  end.

(** The fields of [s] from a position on: [skip] characters of a separator
    found earlier are still to be passed over.  The head of the result is the
    field that is open at this position. *)
Fixpoint split_from (sep : string) (skip : nat) (s : string) : list string :=
  match s with
  | EmptyString => [EmptyString]
  | String c s' =>
      match skip with
      | S k => split_from sep k s'
      | O =>
          if startswith sep s
          then EmptyString :: split_from sep (String.length sep - 1) s'
          else match split_from sep 0 s' with
               | f :: fs => String c f :: fs
               | [] => [String c EmptyString]
               end
      end
  end.

(** [s.split(sep)]: the separator is matched left to right without overlap;
    an empty separator raises [ValueError] ([None]). *)
Definition split (sep s : string) : option (list string) :=
  match sep with
  | EmptyString => None
  | String _ _ => Some (split_from sep 0 s)
  end.

Definition code (c : ascii) : nat := nat_of_ascii c.

(** [c.isspace()] on the code points below 256. *)
Definition isspace (c : ascii) : bool :=
  let n := code c in
  ((9 <=? n) && (n <=? 13) || (28 <=? n) && (n <=? 32) ||
   (n =? 133) || (n =? 160))%nat.

Fixpoint lstrip (s : string) : string :=
  match s with
  | EmptyString => EmptyString
  | String c s' => if isspace c then lstrip s' else s
  end.

Fixpoint rstrip (s : string) : string :=
  match s with
  | EmptyString => EmptyString
  | String c s' =>
      match rstrip s' with
      | EmptyString => if isspace c then EmptyString else String c EmptyString
      | r => String c r
      end
  end.

(** [s.strip()] *)
Definition strip (s : string) : string := rstrip (lstrip s).

(** The white space [int()] skips around a literal: the ASCII white space
    and, above 127, the two separators of the range. *)
Definition int_space (c : ascii) : bool :=
  let n := code c in
  ((9 <=? n) && (n <=? 13) || (n =? 32) || (n =? 133) || (n =? 160))%nat.

Fixpoint int_lstrip (s : string) : string :=
  match s with
  | EmptyString => EmptyString
  | String c s' => if int_space c then int_lstrip s' else s
  end.

Fixpoint int_rstrip (s : string) : string :=
  match s with
  | EmptyString => EmptyString
  | String c s' =>
      match int_rstrip s' with
      | EmptyString => if int_space c then EmptyString else String c EmptyString
      | r => String c r
      end
  end.

Definition digit_of (c : ascii) : option Z :=
  let n := code c in
  if ((48 <=? n) && (n <=? 57))%nat then Some (Z.of_nat (n - 48)) else None.

(** Decimal digits, with single underscores between digits. [after_digit]
    tells whether the character before this position was a digit. *)
Fixpoint digits (acc : Z) (after_digit : bool) (s : string) : option Z :=
  match s with
  | EmptyString => if after_digit then Some acc else None
  | String c s' =>
      match digit_of c with
      | Some d => digits (10 * acc + d) true s'
      | None =>
          if Ascii.eqb c "_"%char && after_digit
          then digits acc false s'
          else None
      end
  end.

(** [int(s)] in base 10: white space, an optional sign, digits, white space.
    [None] stands for [ValueError]. *)
Definition int (s : string) : option Z :=
  match int_rstrip (int_lstrip s) with
  | String "+"%char r => digits 0 false r
  | String "-"%char r => option_map Z.opp (digits 0 false r)
  | t => digits 0 false t
  end.

End PyStr.

(** ** [defaultdict(int)] *)

(** Keys are compared with [==]. *)
Class EqKey (K : Type) := {
  keqb : K -> K -> bool;
  keqb_eq : forall a b, keqb a b = true <-> a = b
}.

#[export] Instance EqKey_string : EqKey string :=
  {| keqb := String.eqb; keqb_eq := String.eqb_eq |}.

#[export] Instance EqKey_Z : EqKey Z :=
  {| keqb := Z.eqb; keqb_eq := Z.eqb_eq |}.

Module DefaultDict.
Section Dict.
Context {K : Type} `{EqKey K}.

(** The items in insertion order; a key occurs at most once. *)
Definition t : Type := list (K * Z).

Definition empty : t := [].

Fixpoint lookup (k : K) (d : t) : option Z :=
  match d with
  | [] => None
  | (k', v) :: d' => if keqb k k' then Some v else lookup k d'
  end.

(** [d[k]] as an expression: a missing key is inserted with [int() = 0],
    at the end of the insertion order. *)
Definition getitem (k : K) (d : t) : Z * t :=
  match lookup k d with
  | Some v => (v, d)
  | None => (0, d ++ [(k, 0)])
  end.

Fixpoint replace (k : K) (v : Z) (d : t) : t :=
  match d with
  | [] => []
  | (k', v') :: d' =>
      if keqb k k' then (k', v) :: d' else (k', v') :: replace k v d'
  end.

(** [d[k] = v]: an existing key keeps its place. *)
Definition setitem (k : K) (v : Z) (d : t) : t :=
  match lookup k d with
  | Some _ => replace k v d
  | None => d ++ [(k, v)]
  end.

(** [d[k] += 1]: a read of [d[k]], then a store. *)
Definition incr (k : K) (d : t) : t :=
  let '(v, d1) := getitem k d in setitem k (v + 1) d1.

Definition keys (d : t) : list K := map fst d.
Definition values (d : t) : list Z := map snd d.
Definition items (d : t) : list (K * Z) := d.

(** What [d[k]] evaluates to, without the insertion. *)
Definition value (k : K) (d : t) : Z := fst (getitem k d).

End Dict.
Arguments t K : clear implicits.
End DefaultDict.

Module DD := DefaultDict.

(** [sum(xs)] *)
Definition sum (xs : list Z) : Z := fold_left Z.add xs 0.

(** How tuples of two integers compare: [a <= b], lexicographically. *)
Definition item_leb (a b : Z * Z) : bool :=
  (fst a <? fst b) || ((fst a =? fst b) && (snd a <=? snd b)).

Fixpoint insert_item (x : Z * Z) (l : list (Z * Z)) : list (Z * Z) :=
  match l with
  | [] => [x]
  | y :: l' => if item_leb x y then x :: l else y :: insert_item x l'
  end.

(** [sorted(d.items())] on integer pairs: a stable sort into ascending
    order, here by insertion. *)
Definition sorted (l : list (Z * Z)) : list (Z * Z) :=
  fold_right insert_item [] l.

(** ** The program *)

(** One [print] call. *)
Inductive output : Type :=
| Usage
    (* Usage: verify.py <inputfile> --separator= *)
| OperatorSumMismatch (operator : string)
    (* OperatorSum for operator ' operator ' does not match! *)
| OperatorSumValues (maxSum totalCount : Z)
    (* maxOperatorSum:  m totalOperatorCounts:  t *)
| NotReceived (key value sources : Z)
    (* key  has not been received by all sources, instead value  #Sources:  n *)
| LinesMismatch
    (* Number of lines does not match counted elements! *)
| LinesMismatchValues (total_lines max_number : Z)
    (* -> Total lines:  t  - Max Number:  m *)
| OperatorLinesMismatch
    (* Number of lines does not match counted elements per operator! *)
| SawOperators (operators : list string)
    (* Saw operators:  keys *)
| SawLines (total_lines : Z).
    (* Saw  t  lines *)

(** The exceptions of a run, by where they are raised.  [open] raises an
    [OSError] for a file that is missing or may not be read and a
    [ValueError] for a path with a NUL character: [OpenError] stands for
    either. *)
Inductive exn : Type :=
| ValueError   (* the loop body: split with an empty separator, unpacking,
                  int() *)
| OpenError.   (* open(), whatever the class of its exception *)

Inductive result (A : Type) : Type :=
| Ok (a : A)
| Raise (e : exn).
Arguments Ok {A} a.
Arguments Raise {A} e.

Definition bind {A B : Type} (m : result A) (f : A -> result B) : result B :=
  match m with
  | Ok a => f a
  | Raise e => Raise e
  end.

Notation "x <- m ;; k" := (bind m (fun x => k))
  (at level 61, m at next level, right associativity).

(** [None] of a built-in stands for its [ValueError]. *)
Definition value_of {A : Type} (o : option A) : result A :=
  match o with
  | Some a => Ok a
  | None => Raise ValueError
  end.

(** How a run of the program ends. *)
Inductive status : Type :=
| Finished                (* the end of the script: exit status 0 *)
| SysExit (code : Z)      (* sys.exit(code) *)
| Uncaught (e : exn).     (* traceback on standard error, exit status 1 *)

Definition exit_code (st : status) : Z :=
  match st with
  | Finished => 0
  | SysExit c => c
  | Uncaught _ => 1
  end.

(** What a run did: the files it opened, what it printed, how it ended. *)
Record run : Type := {
  opened : list string;
  stdout : list output;
  status_of : status
}.

(** The lines a text file yields, by path, for the files that open and
    decode as text; [None] when [open] raises. *)
Definition filesystem : Type := string -> option (list string).

(** The values the loop body takes from one line. *)
Record LogLine : Type := {
  timestamp : string;
  number : Z;
  name : string;
  operator_count : Z
}.

(** The local variables of [parse]. *)
Record State : Type := {
  totalOperatorCounts : DD.t string;
  maxOperatorSum : DD.t string;
  numberCount : DD.t Z;
  total_lines : Z;
  max_number : Z
}.

Definition initial : State :=
  {| totalOperatorCounts := DD.empty;
     maxOperatorSum := DD.empty;
     numberCount := DD.empty;
     total_lines := 0;
     max_number := 0 |}.

(** The first four statements of the loop body: split, unpack into exactly
    four names, convert, strip. *)
Definition parse_line (separator line : string) : result LogLine :=
  fields <- value_of (PyStr.split separator line) ;;
  match fields with
  | [timestamp; number; name; operator_count] =>
      number <- value_of (PyStr.int number) ;;
      operator_count <- value_of (PyStr.int operator_count) ;;
      Ok {| timestamp := timestamp;
            number := number;
            name := PyStr.strip name;
            operator_count := operator_count |}
  | _ => Raise ValueError
  end.

(** The rest of the loop body: the five updates. *)
Definition update (r : LogLine) (s : State) : State :=
  let totalOperatorCounts := DD.incr (name r) (totalOperatorCounts s) in
  let total_lines := total_lines s + 1 in
  let '(m, maxOperatorSum) := DD.getitem (name r) (maxOperatorSum s) in
  let maxOperatorSum :=
    if m <? operator_count r
    then DD.setitem (name r) (operator_count r) maxOperatorSum
    else maxOperatorSum in
  let numberCount := DD.incr (number r) (numberCount s) in
  let max_number :=
    if number r >? max_number s then number r else max_number s in
  {| totalOperatorCounts := totalOperatorCounts;
     maxOperatorSum := maxOperatorSum;
     numberCount := numberCount;
     total_lines := total_lines;
     max_number := max_number |}.

Definition loop_body (separator line : string) (s : State) : result State :=
  r <- parse_line separator line ;;
  Ok (update r s).

(** [for line in file]: the first exception leaves the loop. *)
Fixpoint scan (separator : string) (lines : list string) (s : State)
  : result State :=
  match lines with
  | [] => Ok s
  | line :: rest =>
      s' <- loop_body separator line s ;;
      scan separator rest s'
  end.

(** [for operator in maxOperatorSum.keys()], over the keys still to visit.
    Both dictionaries are read with [d[operator]]; the second [print] reads
    them again, when both keys are present, and so prints the same values. *)
Fixpoint operator_loop (operators : list string) (s : State)
  : list output * State :=
  match operators with
  | [] => ([], s)
  | operator :: rest =>
      let '(m, mos) := DD.getitem operator (maxOperatorSum s) in
      let '(c, toc) := DD.getitem operator (totalOperatorCounts s) in
      let s1 :=
        {| totalOperatorCounts := toc;
           maxOperatorSum := mos;
           numberCount := numberCount s;
           total_lines := total_lines s;
           max_number := max_number s |} in
      let here :=
        if m =? c then []
        else [OperatorSumMismatch operator; OperatorSumValues m c] in
      let '(later, s2) := operator_loop rest s1 in
      (here ++ later, s2)
  end.

(** [for key, value in sorted(numberCount.items())] *)
Definition number_loop (items : list (Z * Z)) (numberOfParallelSources : Z)
  : list output :=
  flat_map
    (fun '(key, value) =>
       if value =? numberOfParallelSources then []
       else [NotReceived key value numberOfParallelSources])
    items.

(** The statements of [parse] after the file is closed. *)
Definition checks (s : State) : list output * State :=
  let '(out1, s) := operator_loop (DD.keys (maxOperatorSum s)) s in
  let max_number := max_number s + 1 in
  let '(numberOfParallelSources, numberCount) :=
    DD.getitem 1 (numberCount s) in
  let out2 := number_loop (sorted (DD.items numberCount))
                numberOfParallelSources in
  let out3 :=
    if total_lines s =? max_number * numberOfParallelSources then []
    else [LinesMismatch; LinesMismatchValues (total_lines s) max_number] in
  let out4 :=
    if total_lines s =? sum (DD.values (totalOperatorCounts s)) then []
    else [OperatorLinesMismatch;
          SawOperators (DD.keys (totalOperatorCounts s))] in
  ((out1 ++ out2 ++ out3 ++ out4 ++ [SawLines (total_lines s)]),
   {| totalOperatorCounts := totalOperatorCounts s;
      maxOperatorSum := maxOperatorSum s;
      numberCount := numberCount;
      total_lines := total_lines s;
      max_number := max_number |}).

Definition parse (fs : filesystem) (inputfile separator : string) : run :=
  match fs inputfile with
  | None => {| opened := []; stdout := []; status_of := Uncaught OpenError |}
  | Some lines =>
      match scan separator lines initial with
      | Raise e =>
          {| opened := [inputfile]; stdout := []; status_of := Uncaught e |}
      | Ok s =>
          {| opened := [inputfile];
             stdout := fst (checks s);
             status_of := Finished |}
      end
  end.

Definition main (fs : filesystem) (argv : list string) : run :=
  if ((2 <? List.length argv) || (List.length argv =? 0))%nat
  then {| opened := []; stdout := [Usage]; status_of := SysExit 2 |}
  else
    let inputfile := nth 0 argv "" in
    let separator := "," in
    let separator :=
      if (List.length argv =? 2)%nat && PyStr.contains "--separator=" (nth 1 argv "")
      then PyStr.slice_from 12 (nth 1 argv "")
      else separator in
    parse fs inputfile separator.

(** A file system with one file. *)
Definition one_file (path : string) (lines : list string) : filesystem :=
  fun p => if String.eqb p path then Some lines else None.

(** A line as the file iterator yields it, with its newline. *)
Definition ln (s : string) : string := (s ++ String "010"%char "")%string.

(** ** The scan in terms of the records of the file *)

(** The keys of a dictionary after the key [k] was read or stored. *)
Definition add_key {K : Type} `{EqKey K} (k : K) (ks : list K) : list K :=
  if existsb (keqb k) ks then ks else ks ++ [k].

(** Every line of the file converts: the records, in file order. *)
Fixpoint parse_lines (separator : string) (lines : list string)
  : result (list LogLine) :=
  match lines with
  | [] => Ok []
  | l :: rest =>
      r <- parse_line separator l ;;
      rs <- parse_lines separator rest ;;
      Ok (r :: rs)
  end.

(** The state after the loop body ran on each record. *)
Definition process (recs : list LogLine) (s : State) : State :=
  fold_left (fun s r => update r s) recs s.

(** The number of lines of an operator. *)
Definition lines_of (op : string) (recs : list LogLine) : Z :=
  Z.of_nat (List.length (filter (fun r => String.eqb (name r) op) recs)).

(** The number of lines with a sequence number. *)
Definition receipts (k : Z) (recs : list LogLine) : Z :=
  Z.of_nat (List.length (filter (fun r => number r =? k) recs)).

(** The largest count an operator reported, from the 0 a first read gives. *)
Definition max_reported (op : string) (recs : list LogLine) : Z :=
  fold_left
    (fun m r => if String.eqb (name r) op then Z.max m (operator_count r) else m)
    recs 0.

(** The count on the last line of an operator. *)
Definition last_reported (op : string) (recs : list LogLine) : option Z :=
  fold_left
    (fun m r => if String.eqb (name r) op then Some (operator_count r) else m)
    recs None.

(** The largest sequence number, from the initial 0. *)
Definition max_seen (recs : list LogLine) : Z :=
  fold_left (fun m r => Z.max m (number r)) recs 0.

(** The operators in the order of their first lines. *)
Definition operators (recs : list LogLine) : list string :=
  fold_left (fun ks r => add_key (name r) ks) recs [].

(** The sequence numbers in the order of their first lines. *)
Definition numbers (recs : list LogLine) : list Z :=
  fold_left (fun ks r => add_key (number r) ks) recs [].

(** What the local variables hold after the records [recs]. *)
Record agrees (recs : list LogLine) (s : State) : Prop := {
  toc_value : forall op, DD.value op (totalOperatorCounts s) = lines_of op recs;
  mos_value : forall op, DD.value op (maxOperatorSum s) = max_reported op recs;
  nc_value : forall k, DD.value k (numberCount s) = receipts k recs;
  toc_keys : DD.keys (totalOperatorCounts s) = operators recs;
  mos_keys : DD.keys (maxOperatorSum s) = operators recs;
  nc_keys : DD.keys (numberCount s) = numbers recs;
  lines_total : total_lines s = Z.of_nat (List.length recs);
  number_max : max_number s = max_seen recs;
  toc_sum : sum (DD.values (totalOperatorCounts s)) = total_lines s
}.

(** ** The checks in terms of the records of the file *)

(** What the operator-count check prints. *)
Definition operator_part (recs : list LogLine) : list output :=
  flat_map
    (fun op =>
       if max_reported op recs =? lines_of op recs then []
       else [OperatorSumMismatch op;
             OperatorSumValues (max_reported op recs) (lines_of op recs)])
    (operators recs).

(** The number of parallel sources the checks assume. *)
Definition baseline (recs : list LogLine) : Z := receipts 1 recs.

(** [numberCount] after the read of [numberCount[1]]. *)
Definition counted (recs : list LogLine) : DD.t Z :=
  snd (DD.getitem 1 (numberCount (process recs initial))).

(** What the per-sequence-number check prints. *)
Definition number_part (recs : list LogLine) : list output :=
  number_loop (sorted (DD.items (counted recs))) (baseline recs).

(** What the check of the total against the range prints. *)
Definition range_part (recs : list LogLine) : list output :=
  let total := Z.of_nat (List.length recs) in
  if total =? (max_seen recs + 1) * baseline recs then []
  else [LinesMismatch; LinesMismatchValues total (max_seen recs + 1)].

(** Items in ascending order of their keys. *)
Definition key_lt (a b : Z * Z) : Prop := fst a < fst b.

(** ** Which check printed what *)

(** The checks of [parse] and the other sources of output. *)
Inductive check : Type :=
| UsageMessage | OperatorCheck | NumberCheck | RangeCheck | PerOperatorCheck
| Summary.

(** The check that prints an output line. *)
Definition check_of (o : output) : check :=
  match o with
  | Usage => UsageMessage
  | OperatorSumMismatch _ | OperatorSumValues _ _ => OperatorCheck
  | NotReceived _ _ _ => NumberCheck
  | LinesMismatch | LinesMismatchValues _ _ => RangeCheck
  | OperatorLinesMismatch | SawOperators _ => PerOperatorCheck
  | SawLines _ => Summary
  end.

Definition check_eqb (a b : check) : bool :=
  match a, b with
  | UsageMessage, UsageMessage | OperatorCheck, OperatorCheck
  | NumberCheck, NumberCheck | RangeCheck, RangeCheck
  | PerOperatorCheck, PerOperatorCheck | Summary, Summary => true
  | _, _ => false
  end.

(** The part of an output that a check printed, in order. *)
Definition printed_by (c : check) (out : list output) : list output :=
  filter (fun o => check_eqb (check_of o) c) out.

(** The sequence numbers of the per-sequence-number reports, in order. *)
Definition reported_numbers (out : list output) : list Z :=
  flat_map (fun o => match o with NotReceived k _ _ => [k] | _ => [] end) out.

(** ** The conditions of the properties *)

(** A line that does not split into exactly four fields, or whose second or
    fourth field is not an integer literal. *)
Definition malformed (separator line : string) : bool :=
  match PyStr.split separator line with
  | Some [_; number; _; operator_count] =>
      match PyStr.int number, PyStr.int operator_count with
      | Some _, Some _ => false
      | _, _ => true
      end
  | _ => true
  end.

(** Every operator but [op] has as many lines as its recorded maximum. *)
Definition others_agree (op : string) (recs : list LogLine) : bool :=
  forallb
    (fun op' =>
       String.eqb op' op || (max_reported op' recs =? lines_of op' recs))
    (operators recs).

(** The count on the last line of [op] is not the number of its lines. *)
Definition last_differs (op : string) (recs : list LogLine) : bool :=
  match last_reported op recs with
  | Some v => negb (v =? lines_of op recs)
  | None => false
  end.

(** For every operator but [op] the count on its last line is the number of
    its lines. *)
Definition others_last_agree (op : string) (recs : list LogLine) : bool :=
  forallb (fun op' => String.eqb op' op || negb (last_differs op' recs))
    (operators recs).

(** The log of [S] sources that each emit the sequence numbers below [N]
    once: every number is below [N] and has [S] lines, and every operator
    reports counts up to the number of its lines and that number on its last
    line. *)
Definition generated (S N : nat) (recs : list LogLine) : bool :=
  forallb (fun r => (0 <=? number r) && (number r <? Z.of_nat N)) recs &&
  forallb (fun k => receipts (Z.of_nat k) recs =? Z.of_nat S) (seq 0 N) &&
  forallb (fun r => operator_count r <=? lines_of (name r) recs) recs &&
  forallb
    (fun op =>
       match last_reported op recs with
       | Some v => v =? lines_of op recs
       | None => false
       end)
    (operators recs).


(** ** More observations of a run *)

(** The operators of the operator-count reports, in order. *)
Definition flagged_operators (out : list output) : list string :=
  flat_map
    (fun o => match o with OperatorSumMismatch op => [op] | _ => [] end) out.

(** What the loop body uses of a line: the timestamp is not among it. *)
Definition counted_fields (r : LogLine) : Z * string * Z :=
  (number r, name r, operator_count r).

(** How often a character occurs in a string. *)
Fixpoint occurrences (c : ascii) (s : string) : nat :=
  match s with
  | EmptyString => 0
  | String a s' => (if Ascii.eqb a c then 1 else 0) + occurrences c s'
  end.

(** * Examples and properties *)

(** ** The string methods on examples *)

Example split_csv :
  PyStr.split "," "t0,12,op a,3" = Some ["t0"; "12"; "op a"; "3"].
Proof. reflexivity. Qed.

Example split_long_separator :
  PyStr.split "ab" "xabyabab" = Some ["x"; "y"; ""; ""].
Proof. reflexivity. Qed.

Example split_overlap : PyStr.split "aa" "aaa" = Some [""; "a"].
Proof. reflexivity. Qed.

Example int_with_newline : PyStr.int (" 42" ++ String "010"%char "")%string = Some 42.
Proof. reflexivity. Qed.

Example int_negative : PyStr.int "-7" = Some (-7).
Proof. reflexivity. Qed.

Example int_underscore : PyStr.int "1_000" = Some 1000 /\ PyStr.int "1__0" = None.
Proof. split; reflexivity. Qed.

Example int_rejects : PyStr.int "" = None /\ PyStr.int "a" = None /\ PyStr.int "- 1" = None.
Proof. repeat split; reflexivity. Qed.

Example strip_name : PyStr.strip "  src 1 " = "src 1".
Proof. reflexivity. Qed.

Example contains_marker :
  PyStr.contains "--separator=" "x--separator=;" = true /\
  PyStr.contains "--separator=" "--separator" = false.
Proof. split; reflexivity. Qed.

(** ** Runs of the program *)

Example run_two_sources :
  main (one_file "log" [ln "t,0,a,1"; ln "t,0,b,1"; ln "t,1,a,2"; ln "t,1,b,2"])
       ["log"]
  = {| opened := ["log"]; stdout := [SawLines 4]; status_of := Finished |}.
Proof. vm_compute. reflexivity. Qed.

Example run_missing_receipt :
  stdout (main (one_file "log" [ln "t;2;a;1"; ln "t;0;a;2"; ln "t;0;b;1"; ln "t;1;a;3"; ln "t;1;b;2"])
       ["log"; "--separator=;"])
  = [NotReceived 2 1 2; LinesMismatch; LinesMismatchValues 5 3; SawLines 5].
Proof. vm_compute. reflexivity. Qed.

Example run_wrong_separator :
  main (one_file "log" [ln "t;0;a;1"]) ["log"]
  = {| opened := ["log"]; stdout := []; status_of := Uncaught ValueError |}.
Proof. vm_compute. reflexivity. Qed.

(** ** Facts about [defaultdict(int)] *)

Section DictFacts.
Context {K : Type} `{EqKey K}.
Implicit Types (k : K) (v : Z) (d : DD.t K) (ks : list K).

Lemma keqb_refl k : keqb k k = true.
Proof. apply keqb_eq; reflexivity. Qed.

Lemma keqb_neq k k' : keqb k k' = false -> k <> k'.
Proof. intros E ->. rewrite keqb_refl in E. discriminate. Qed.

Lemma keqb_false k k' : k <> k' -> keqb k k' = false.
Proof.
  intros N. destruct (keqb k k') eqn:E; auto.
  apply keqb_eq in E. contradiction.
Qed.

Lemma existsb_keys k d :
  existsb (keqb k) (DD.keys d) =
  match DD.lookup k d with Some _ => true | None => false end.
Proof.
  induction d as [|[k' v'] d IH]; simpl; auto.
  destruct (keqb k k'); simpl; auto.
Qed.

Lemma existsb_In k ks : existsb (keqb k) ks = true <-> In k ks.
Proof.
  rewrite existsb_exists. split.
  - intros (x & Hx & E). apply keqb_eq in E. now subst.
  - intros Hk. exists k. split; auto using keqb_refl.
Qed.

Lemma In_add_key k k' ks : In k' (add_key k ks) <-> k' = k \/ In k' ks.
Proof.
  unfold add_key. destruct (existsb (keqb k) ks) eqn:E.
  - apply existsb_In in E. split; auto. intros [->|?]; auto.
  - rewrite in_app_iff. simpl. intuition.
Qed.

Lemma NoDup_add_key k ks : NoDup ks -> NoDup (add_key k ks).
Proof.
  intros ND. unfold add_key. destruct (existsb (keqb k) ks) eqn:E; auto.
  assert (~ In k ks) as Hn.
  { intros Hk. apply existsb_In in Hk. congruence. }
  clear E. induction ND as [|x l Hx ND IH]; simpl.
  - constructor; auto. constructor.
  - constructor.
    + rewrite in_app_iff. simpl in *. intuition.
    + apply IH. simpl in Hn. intuition.
Qed.

Lemma lookup_In_keys k d : DD.lookup k d <> None <-> In k (DD.keys d).
Proof.
  rewrite <- existsb_In, existsb_keys.
  destruct (DD.lookup k d); split; congruence.
Qed.

Lemma value_lookup k d :
  DD.value k d = match DD.lookup k d with Some v => v | None => 0 end.
Proof. unfold DD.value, DD.getitem. now destruct (DD.lookup k d). Qed.

Lemma lookup_snoc k k' v d :
  DD.lookup k (d ++ [(k', v)]) =
  match DD.lookup k d with
  | Some x => Some x
  | None => if keqb k k' then Some v else None
  end.
Proof.
  induction d as [|[k0 v0] d IH]; simpl; auto.
  destruct (keqb k k0); auto.
Qed.

Lemma lookup_replace k k' v d :
  DD.lookup k' (DD.replace k v d) =
  match DD.lookup k' d with
  | Some x => if keqb k' k then Some v else Some x
  | None => None
  end.
Proof.
  induction d as [|[k0 v0] d IH]; simpl; auto.
  destruct (keqb k k0) eqn:E; simpl.
  - apply keqb_eq in E. subst k0. destruct (keqb k' k); auto.
    destruct (DD.lookup k' d); auto.
  - destruct (keqb k' k0) eqn:E'; auto.
    apply keqb_eq in E'. subst k0.
    destruct (keqb k' k) eqn:E2; auto.
    apply keqb_eq in E2. subst. rewrite keqb_refl in E. discriminate.
Qed.

Lemma getitem_present k d :
  In k (DD.keys d) -> DD.getitem k d = (DD.value k d, d).
Proof.
  intros Hk. apply lookup_In_keys in Hk. rewrite value_lookup.
  unfold DD.getitem. now destruct (DD.lookup k d).
Qed.

Lemma value_after_getitem k k' d :
  DD.value k' (snd (DD.getitem k d)) = DD.value k' d.
Proof.
  unfold DD.getitem. destruct (DD.lookup k d) eqn:E; simpl; auto.
  rewrite !value_lookup, lookup_snoc.
  destruct (DD.lookup k' d); auto. now destruct (keqb k' k).
Qed.

Lemma value_setitem k k' v d :
  DD.value k' (DD.setitem k v d) = if keqb k' k then v else DD.value k' d.
Proof.
  unfold DD.setitem. rewrite !value_lookup.
  destruct (DD.lookup k d) eqn:E.
  - rewrite lookup_replace. destruct (keqb k' k) eqn:E'.
    + apply keqb_eq in E'. subst. now rewrite E.
    + now destruct (DD.lookup k' d).
  - rewrite lookup_snoc. destruct (keqb k' k) eqn:E'.
    + apply keqb_eq in E'. subst. now rewrite E.
    + now destruct (DD.lookup k' d).
Qed.

Lemma incr_unfold k d :
  DD.incr k d = DD.setitem k (DD.value k d + 1) (snd (DD.getitem k d)).
Proof. unfold DD.incr, DD.value. now destruct (DD.getitem k d). Qed.

Lemma value_incr k k' d :
  DD.value k' (DD.incr k d) = DD.value k' d + (if keqb k' k then 1 else 0).
Proof.
  rewrite incr_unfold, value_setitem, value_after_getitem.
  destruct (keqb k' k) eqn:E; try lia.
  apply keqb_eq in E. now subst.
Qed.

Lemma keys_snoc k v d : DD.keys (d ++ [(k, v)]) = (DD.keys d ++ [k]).
Proof. unfold DD.keys. now rewrite map_app. Qed.

Lemma keys_replace k v d : DD.keys (DD.replace k v d) = DD.keys d.
Proof.
  induction d as [|[k0 v0] d IH]; simpl; auto.
  destruct (keqb k k0); simpl; auto. f_equal. apply IH.
Qed.

Lemma keys_after_getitem k d :
  DD.keys (snd (DD.getitem k d)) = add_key k (DD.keys d).
Proof.
  unfold add_key, DD.getitem. rewrite existsb_keys.
  destruct (DD.lookup k d); simpl; auto using keys_snoc.
Qed.

Lemma keys_setitem k v d : DD.keys (DD.setitem k v d) = add_key k (DD.keys d).
Proof.
  unfold add_key, DD.setitem. rewrite existsb_keys.
  destruct (DD.lookup k d); auto using keys_snoc, keys_replace.
Qed.

Lemma add_key_idem k ks : add_key k (add_key k ks) = add_key k ks.
Proof.
  unfold add_key at 1.
  assert (existsb (keqb k) (add_key k ks) = true) as ->; auto.
  apply existsb_In, In_add_key. now left.
Qed.

Lemma keys_incr k d : DD.keys (DD.incr k d) = add_key k (DD.keys d).
Proof.
  now rewrite incr_unfold, keys_setitem, keys_after_getitem, add_key_idem.
Qed.

Lemma sum_from (xs : list Z) a : fold_left Z.add xs a = a + sum xs.
Proof.
  unfold sum. revert a. induction xs as [|x xs IH]; intros a; simpl.
  - lia.
  - rewrite IH, (IH x). lia.
Qed.

Lemma sum_cons x (xs : list Z) : sum (x :: xs) = x + sum xs.
Proof. unfold sum at 1. simpl. now rewrite sum_from. Qed.

Lemma sum_app (xs ys : list Z) : sum (xs ++ ys) = sum xs + sum ys.
Proof.
  induction xs as [|x xs IH]; simpl.
  - reflexivity.
  - rewrite !sum_cons, IH. lia.
Qed.

Lemma sum_values_snoc k v d :
  sum (DD.values (d ++ [(k, v)])) = sum (DD.values d) + v.
Proof.
  unfold DD.values. rewrite map_app, sum_app. simpl.
  rewrite sum_cons. unfold sum. simpl. lia.
Qed.

Lemma sum_values_replace k v d x :
  DD.lookup k d = Some x ->
  sum (DD.values (DD.replace k v d)) = sum (DD.values d) - x + v.
Proof.
  induction d as [|[k0 v0] d IH]; simpl; try discriminate.
  destruct (keqb k k0); simpl; intros E.
  - injection E as ->. unfold DD.values. simpl. rewrite !sum_cons. lia.
  - unfold DD.values in *. simpl. rewrite !sum_cons, IH; auto. lia.
Qed.

Lemma sum_values_after_getitem k d :
  sum (DD.values (snd (DD.getitem k d))) = sum (DD.values d).
Proof.
  unfold DD.getitem. destruct (DD.lookup k d); simpl; auto.
  rewrite sum_values_snoc. lia.
Qed.

Lemma sum_values_setitem k v d :
  sum (DD.values (DD.setitem k v d)) = sum (DD.values d) - DD.value k d + v.
Proof.
  unfold DD.setitem. rewrite value_lookup.
  destruct (DD.lookup k d) eqn:E.
  - now apply sum_values_replace.
  - rewrite sum_values_snoc. lia.
Qed.

Lemma sum_values_incr k d :
  sum (DD.values (DD.incr k d)) = sum (DD.values d) + 1.
Proof.
  rewrite incr_unfold, sum_values_setitem, sum_values_after_getitem,
    value_after_getitem. lia.
Qed.

Lemma In_items_lookup k v d :
  NoDup (DD.keys d) -> In (k, v) d -> DD.lookup k d = Some v.
Proof.
  induction d as [|[k0 v0] d IH]; simpl; [tauto|].
  intros ND [E|Hin].
  - injection E as -> ->. now rewrite keqb_refl.
  - inversion ND as [|? ? Hn ND']; subst.
    destruct (keqb k k0) eqn:E.
    + apply keqb_eq in E. subst. exfalso. apply Hn.
      change (In (fst (k0, v)) (map fst d)). now apply in_map.
    + now apply IH.
Qed.

Lemma lookup_In_items k v d : DD.lookup k d = Some v -> In (k, v) d.
Proof.
  induction d as [|[k0 v0] d IH]; simpl; try discriminate.
  destruct (keqb k k0) eqn:E.
  - apply keqb_eq in E. subst. intros [= ->]. now left.
  - auto.
Qed.

End DictFacts.

(** ** The scan in terms of the records of the file *)

Lemma scan_parse_lines separator lines recs s :
  parse_lines separator lines = Ok recs ->
  scan separator lines s = Ok (process recs s).
Proof.
  revert recs s. induction lines as [|l lines IH]; intros recs s; simpl.
  - intros [= <-]. reflexivity.
  - unfold loop_body. destruct (parse_line separator l) as [r|e]; simpl;
      try discriminate.
    destruct (parse_lines separator lines) as [rs|e]; simpl; try discriminate.
    intros [= <-]. simpl. now apply IH.
Qed.

Lemma scan_Ok_parse_lines separator lines s s' :
  scan separator lines s = Ok s' ->
  exists recs, parse_lines separator lines = Ok recs /\ s' = process recs s.
Proof.
  revert s. induction lines as [|l lines IH]; intros s; simpl.
  - intros [= <-]. now exists [].
  - unfold loop_body. destruct (parse_line separator l) as [r|e]; simpl;
      try discriminate.
    intros Hs. destruct (IH _ Hs) as (rs & -> & ->). now exists (r :: rs).
Qed.

Lemma process_snoc recs r s :
  process (recs ++ [r]) s = update r (process recs s).
Proof. unfold process. now rewrite fold_left_app. Qed.

Lemma lines_of_snoc op recs r :
  lines_of op (recs ++ [r]) =
  lines_of op recs + (if String.eqb op (name r) then 1 else 0).
Proof.
  unfold lines_of. rewrite filter_app, length_app. simpl.
  rewrite (String.eqb_sym op). destruct (String.eqb (name r) op); simpl; lia.
Qed.

Lemma receipts_snoc k recs r :
  receipts k (recs ++ [r]) =
  receipts k recs + (if k =? number r then 1 else 0).
Proof.
  unfold receipts. rewrite filter_app, length_app. simpl.
  rewrite (Z.eqb_sym k). destruct (number r =? k); simpl; lia.
Qed.

Lemma max_reported_snoc op recs r :
  max_reported op (recs ++ [r]) =
  if String.eqb op (name r)
  then Z.max (max_reported op recs) (operator_count r)
  else max_reported op recs.
Proof.
  unfold max_reported. rewrite fold_left_app. simpl.
  now rewrite (String.eqb_sym op).
Qed.

Lemma max_seen_snoc recs r :
  max_seen (recs ++ [r]) = Z.max (max_seen recs) (number r).
Proof. unfold max_seen. now rewrite fold_left_app. Qed.

Lemma operators_snoc recs r :
  operators (recs ++ [r]) = add_key (name r) (operators recs).
Proof. unfold operators. now rewrite fold_left_app. Qed.

Lemma numbers_snoc recs r :
  numbers (recs ++ [r]) = add_key (number r) (numbers recs).
Proof. unfold numbers. now rewrite fold_left_app. Qed.

Lemma In_operators op recs : In op (operators recs) <-> In op (map name recs).
Proof.
  induction recs as [|r recs IH] using rev_ind; simpl; [tauto|].
  rewrite operators_snoc, In_add_key, map_app, in_app_iff, IH. simpl.
  intuition.
Qed.

Lemma In_numbers k recs : In k (numbers recs) <-> In k (map number recs).
Proof.
  induction recs as [|r recs IH] using rev_ind; simpl; [tauto|].
  rewrite numbers_snoc, In_add_key, map_app, in_app_iff, IH. simpl.
  intuition.
Qed.

Lemma NoDup_operators recs : NoDup (operators recs).
Proof.
  induction recs as [|r recs IH] using rev_ind.
  - constructor.
  - rewrite operators_snoc. now apply NoDup_add_key.
Qed.

Lemma NoDup_numbers recs : NoDup (numbers recs).
Proof.
  induction recs as [|r recs IH] using rev_ind.
  - constructor.
  - rewrite numbers_snoc. now apply NoDup_add_key.
Qed.

Lemma receipts_pos k recs : 0 < receipts k recs <-> In k (map number recs).
Proof.
  unfold receipts. induction recs as [|r recs IH]; simpl; [lia|].
  destruct (Z.eqb_spec (number r) k); simpl.
  - split; auto. lia.
  - rewrite IH. intuition.
Qed.

Lemma lines_of_pos op recs : 0 < lines_of op recs <-> In op (map name recs).
Proof.
  unfold lines_of. induction recs as [|r recs IH]; simpl; [lia|].
  destruct (String.eqb_spec (name r) op); simpl.
  - split; auto. lia.
  - rewrite IH. intuition.
Qed.

Lemma max_seen_nonneg recs : 0 <= max_seen recs.
Proof.
  induction recs as [|r recs IH] using rev_ind; [reflexivity|].
  rewrite max_seen_snoc. lia.
Qed.

Lemma max_seen_le recs b :
  0 <= b -> (forall r, In r recs -> number r <= b) -> max_seen recs <= b.
Proof.
  intros Hb. induction recs as [|r recs IH] using rev_ind; intros Hall.
  - exact Hb.
  - rewrite max_seen_snoc.
    assert (max_seen recs <= b)
      by (apply IH; intros r' Hr'; apply Hall; rewrite in_app_iff; auto).
    assert (number r <= b) by (apply Hall; rewrite in_app_iff; simpl; auto).
    lia.
Qed.

Lemma max_seen_ge recs r : In r recs -> number r <= max_seen recs.
Proof.
  induction recs as [|r' recs IH] using rev_ind; [contradiction|].
  rewrite in_app_iff, max_seen_snoc. simpl. intros [Hin|[->|[]]].
  - specialize (IH Hin). lia.
  - lia.
Qed.

Lemma receipts_nonneg k recs : 0 <= receipts k recs.
Proof. unfold receipts. lia. Qed.

Lemma agrees_initial : agrees [] initial.
Proof. constructor; reflexivity. Qed.

Lemma agrees_update recs s r :
  agrees recs s -> agrees (recs ++ [r]) (update r s).
Proof.
  intros [Ht Hm Hn Kt Km Kn Hl Hx Hs]. unfold update.
  destruct (DD.getitem (name r) (maxOperatorSum s)) as [m mos] eqn:G.
  assert (m = DD.value (name r) (maxOperatorSum s)) as Em
    by (unfold DD.value; now rewrite G).
  assert (mos = snd (DD.getitem (name r) (maxOperatorSum s))) as Emos
    by now rewrite G.
  constructor; simpl.
  - intros op. now rewrite value_incr, Ht, lines_of_snoc.
  - intros op. rewrite max_reported_snoc, <- Hm.
    destruct (Z.ltb_spec m (operator_count r)).
    + rewrite value_setitem. simpl. destruct (String.eqb op (name r)) eqn:E.
      * apply String.eqb_eq in E. subst op. lia.
      * subst mos. apply value_after_getitem.
    + subst mos. rewrite value_after_getitem.
      destruct (String.eqb_spec op (name r)); auto. subst op. lia.
  - intros k. now rewrite value_incr, Hn, receipts_snoc.
  - now rewrite keys_incr, Kt, operators_snoc.
  - rewrite operators_snoc, <- Km.
    destruct (m <? operator_count r); subst mos.
    + now rewrite keys_setitem, keys_after_getitem, add_key_idem.
    + apply keys_after_getitem.
  - now rewrite keys_incr, Kn, numbers_snoc.
  - rewrite Hl, length_app. simpl. lia.
  - rewrite max_seen_snoc, <- Hx.
    destruct (Z.gtb_spec (number r) (max_number s)); lia.
  - rewrite sum_values_incr. lia.
Qed.

Lemma agrees_process recs : agrees recs (process recs initial).
Proof.
  induction recs as [|r recs IH] using rev_ind.
  - apply agrees_initial.
  - rewrite process_snoc. now apply agrees_update.
Qed.

(** ** The checks in terms of the records of the file *)

Lemma operator_loop_present ops s :
  (forall op, In op ops ->
     In op (DD.keys (maxOperatorSum s)) /\
     In op (DD.keys (totalOperatorCounts s))) ->
  operator_loop ops s =
  (flat_map
     (fun op =>
        let m := DD.value op (maxOperatorSum s) in
        let c := DD.value op (totalOperatorCounts s) in
        if m =? c then []
        else [OperatorSumMismatch op; OperatorSumValues m c])
     ops, s).
Proof.
  induction ops as [|op ops IH]; intros Hin; simpl; auto.
  destruct (Hin op (or_introl eq_refl)) as [Hm Ht].
  rewrite (getitem_present _ _ Hm), (getitem_present _ _ Ht).
  assert ({| totalOperatorCounts := totalOperatorCounts s;
             maxOperatorSum := maxOperatorSum s;
             numberCount := numberCount s;
             total_lines := total_lines s;
             max_number := max_number s |} = s) as -> by now destruct s.
  rewrite IH by (intros; apply Hin; now right). reflexivity.
Qed.

Lemma operator_loop_agrees recs s :
  agrees recs s ->
  operator_loop (DD.keys (maxOperatorSum s)) s = (operator_part recs, s).
Proof.
  intros A. rewrite operator_loop_present.
  - unfold operator_part. rewrite (mos_keys _ _ A). f_equal.
    apply flat_map_ext. intros op. cbv zeta.
    now rewrite (mos_value _ _ A), (toc_value _ _ A).
  - intros op Hop. split; auto.
    rewrite (toc_keys _ _ A), <- (mos_keys _ _ A). exact Hop.
Qed.

Lemma checks_agrees recs s :
  agrees recs s ->
  checks s =
  (operator_part recs ++
   number_loop (sorted (DD.items (snd (DD.getitem 1 (numberCount s)))))
     (baseline recs) ++
   range_part recs ++ [SawLines (Z.of_nat (List.length recs))],
   {| totalOperatorCounts := totalOperatorCounts s;
      maxOperatorSum := maxOperatorSum s;
      numberCount := snd (DD.getitem 1 (numberCount s));
      total_lines := total_lines s;
      max_number := max_number s + 1 |}).
Proof.
  intros A. unfold checks. rewrite (operator_loop_agrees _ _ A).
  destruct (DD.getitem 1 (numberCount s)) as [n nc] eqn:G.
  assert (n = baseline recs) as ->.
  { unfold baseline. rewrite <- (nc_value _ _ A). unfold DD.value.
    now rewrite G. }
  rewrite (toc_sum _ _ A), Z.eqb_refl. simpl.
  unfold range_part.
  now rewrite (lines_total _ _ A), (number_max _ _ A).
Qed.

(** A file whose lines all convert: the run in terms of the records. *)
Lemma parse_records fs inputfile separator lines recs :
  fs inputfile = Some lines ->
  parse_lines separator lines = Ok recs ->
  parse fs inputfile separator =
  {| opened := [inputfile];
     stdout := operator_part recs ++ number_part recs ++ range_part recs ++
               [SawLines (Z.of_nat (List.length recs))];
     status_of := Finished |}.
Proof.
  intros Hf Hp. unfold parse. rewrite Hf.
  rewrite (scan_parse_lines _ _ _ _ Hp).
  now rewrite (checks_agrees _ _ (agrees_process recs)).
Qed.

(** ** The sorted items *)

Lemma item_leb_trans a b c :
  item_leb a b = true -> item_leb b c = true -> item_leb a c = true.
Proof.
  destruct a as [a1 a2], b as [b1 b2], c as [c1 c2]. unfold item_leb.
  simpl. rewrite !orb_true_iff, !andb_true_iff, !Z.ltb_lt, !Z.eqb_eq,
    !Z.leb_le. lia.
Qed.

Lemma item_leb_total a b : item_leb a b = false -> item_leb b a = true.
Proof.
  destruct a as [a1 a2], b as [b1 b2]. unfold item_leb. simpl.
  rewrite orb_false_iff, andb_false_iff, orb_true_iff, andb_true_iff,
    !Z.ltb_lt, !Z.ltb_ge, !Z.eqb_eq, Z.eqb_neq, Z.leb_le, Z.leb_gt. lia.
Qed.

Lemma insert_item_Permutation x l : Permutation (x :: l) (insert_item x l).
Proof.
  induction l as [|y l IH]; simpl; auto.
  destruct (item_leb x y); auto.
  rewrite perm_swap. now apply perm_skip.
Qed.

Lemma sorted_Permutation l : Permutation l (sorted l).
Proof.
  induction l as [|x l IH]; simpl; auto.
  rewrite <- insert_item_Permutation. now apply perm_skip.
Qed.

Lemma insert_item_sorted x l :
  StronglySorted (fun a b => item_leb a b = true) l ->
  StronglySorted (fun a b => item_leb a b = true) (insert_item x l).
Proof.
  induction 1 as [|y l SS IH F]; simpl.
  - repeat constructor.
  - destruct (item_leb x y) eqn:E.
    + constructor; [now constructor|]. constructor; auto.
      eapply Forall_impl; [|exact F]. intros z. now apply item_leb_trans.
    + constructor; auto. rewrite Forall_forall in *. intros z Hz.
      apply (Permutation_in _ (Permutation_sym (insert_item_Permutation x l)))
        in Hz.
      destruct Hz as [<-|Hz]; auto using item_leb_total.
Qed.

Lemma sorted_ascending l :
  StronglySorted (fun a b => item_leb a b = true) (sorted l).
Proof.
  induction l as [|x l IH]; simpl; [constructor|].
  now apply insert_item_sorted.
Qed.

Lemma In_sorted x l : In x (sorted l) <-> In x l.
Proof.
  split; apply Permutation_in.
  - symmetry. apply sorted_Permutation.
  - apply sorted_Permutation.
Qed.

Lemma sorted_by_key l :
  NoDup (map fst l) -> StronglySorted key_lt (sorted l).
Proof.
  intros ND.
  assert (NoDup (map fst (sorted l))) as ND'.
  { eapply Permutation_NoDup; [|exact ND].
    apply Permutation_map, sorted_Permutation. }
  pose proof (sorted_ascending l) as SS.
  induction SS as [|x xs SS IH F]; constructor.
  - apply IH. now inversion ND'.
  - inversion ND' as [|? ? Hn _]; subst.
    rewrite Forall_forall in *. intros y Hy.
    specialize (F y Hy). unfold key_lt. unfold item_leb in F.
    rewrite orb_true_iff, andb_true_iff, Z.ltb_lt, Z.eqb_eq in F.
    destruct F as [F|[F _]]; auto.
    exfalso. apply Hn. rewrite F. now apply in_map.
Qed.

(** Two lists in strictly increasing order with the same members are equal. *)
Lemma increasing_unique {A : Type} (R : A -> A -> Prop) :
  (forall x, ~ R x x) -> (forall x y z, R x y -> R y z -> R x z) ->
  forall l1 l2,
    StronglySorted R l1 -> StronglySorted R l2 ->
    (forall x, In x l1 <-> In x l2) -> l1 = l2.
Proof.
  intros Irr Tr. induction l1 as [|a l1 IH]; intros l2 S1 S2 E.
  - destruct l2 as [|b l2]; auto. destruct (proj2 (E b)). now left.
  - destruct l2 as [|b l2]; [destruct (proj1 (E a)); now left|].
    inversion S1 as [|? ? S1' F1]; inversion S2 as [|? ? S2' F2]; subst.
    rewrite Forall_forall in F1, F2.
    assert (a = b) as ->.
    { destruct (proj1 (E a) (or_introl eq_refl)) as [|Ha]; auto.
      destruct (proj2 (E b) (or_introl eq_refl)) as [|Hb]; auto.
      destruct (Irr a). eauto. }
    f_equal. apply IH; auto. intros x. split; intros Hx.
    + destruct (proj1 (E x) (or_intror Hx)) as [<-|]; auto.
      destruct (Irr _ (F1 _ Hx)).
    + destruct (proj2 (E x) (or_intror Hx)) as [<-|]; auto.
      destruct (Irr _ (F2 _ Hx)).
Qed.

(** ** Which check printed what *)

Lemma printed_by_app c a b :
  printed_by c (a ++ b) = printed_by c a ++ printed_by c b.
Proof. apply filter_app. Qed.

Lemma printed_by_all c c' out :
  Forall (fun o => check_of o = c') out ->
  printed_by c out = if check_eqb c' c then out else [].
Proof.
  induction 1 as [|o out Ho F IH]; simpl.
  - now destruct (check_eqb c' c).
  - rewrite Ho, IH. now destruct (check_eqb c' c).
Qed.

Lemma operator_part_check recs :
  Forall (fun o => check_of o = OperatorCheck) (operator_part recs).
Proof.
  unfold operator_part. induction (operators recs) as [|op ops IH]; simpl.
  - constructor.
  - apply Forall_app. split; auto.
    destruct (_ =? _); repeat constructor.
Qed.

Lemma number_loop_check items n :
  Forall (fun o => check_of o = NumberCheck) (number_loop items n).
Proof.
  unfold number_loop. induction items as [|[k v] items IH]; simpl.
  - constructor.
  - apply Forall_app. split; auto.
    destruct (_ =? _); repeat constructor.
Qed.

Lemma range_part_check recs :
  Forall (fun o => check_of o = RangeCheck) (range_part recs).
Proof. unfold range_part. cbv zeta. destruct (_ =? _); repeat constructor. Qed.

(** The output of a run on records, check by check. *)
Lemma printed_by_run c recs :
  printed_by c
    (operator_part recs ++ number_part recs ++ range_part recs ++
     [SawLines (Z.of_nat (List.length recs))]) =
  match c with
  | OperatorCheck => operator_part recs
  | NumberCheck => number_part recs
  | RangeCheck => range_part recs
  | Summary => [SawLines (Z.of_nat (List.length recs))]
  | _ => []
  end.
Proof.
  rewrite !printed_by_app.
  rewrite (printed_by_all c _ _ (operator_part_check recs)).
  unfold number_part at 1.
  rewrite (printed_by_all c _ _ (number_loop_check _ _)).
  rewrite (printed_by_all c _ _ (range_part_check recs)).
  destruct c; simpl; rewrite ?app_nil_r; reflexivity.
Qed.

Lemma In_number_loop k v n items n0 :
  In (NotReceived k v n) (number_loop items n0) <->
  n = n0 /\ In (k, v) items /\ v <> n0.
Proof.
  unfold number_loop. rewrite in_flat_map. split.
  - intros ([k' v'] & Hin & Ho).
    destruct (Z.eqb_spec v' n0); simpl in Ho; [tauto|].
    destruct Ho as [[= -> -> ->]|[]]. auto.
  - intros (-> & Hin & Hv). exists (k, v). split; auto.
    destruct (Z.eqb_spec v n0); [contradiction|]. now left.
Qed.

Lemma number_loop_nil items n :
  (forall k v, In (k, v) items -> v = n) -> number_loop items n = [].
Proof.
  unfold number_loop. induction items as [|[k v] items IH]; intros Hall; simpl.
  - reflexivity.
  - rewrite (Hall k v) by now left. rewrite Z.eqb_refl. simpl.
    apply IH. intros; eapply Hall; right; eauto.
Qed.

Lemma reported_numbers_app a b :
  reported_numbers (a ++ b) = reported_numbers a ++ reported_numbers b.
Proof. apply flat_map_app. Qed.

Lemma reported_numbers_none c out :
  c <> NumberCheck -> Forall (fun o => check_of o = c) out ->
  reported_numbers out = [].
Proof.
  intros Hc. induction 1 as [|o out Ho F IH]; simpl; auto.
  rewrite IH. destruct o; simpl in *; auto. congruence.
Qed.

Lemma reported_numbers_loop items n :
  reported_numbers (number_loop items n) =
  map fst (filter (fun kv => negb (snd kv =? n)) items).
Proof.
  unfold number_loop. induction items as [|[k v] items IH]; simpl; auto.
  rewrite reported_numbers_app, IH. now destruct (v =? n).
Qed.

Lemma reported_numbers_run recs :
  reported_numbers
    (operator_part recs ++ number_part recs ++ range_part recs ++
     [SawLines (Z.of_nat (List.length recs))]) =
  reported_numbers (number_part recs).
Proof.
  rewrite !reported_numbers_app.
  rewrite (reported_numbers_none OperatorCheck _ ltac:(discriminate)
             (operator_part_check recs)).
  rewrite (reported_numbers_none RangeCheck _ ltac:(discriminate)
             (range_part_check recs)).
  simpl. now rewrite app_nil_r.
Qed.

(** ** [numberCount] when the checks read it *)

Lemma counted_keys recs : DD.keys (counted recs) = add_key 1 (numbers recs).
Proof.
  unfold counted. rewrite keys_after_getitem.
  now rewrite (nc_keys _ _ (agrees_process recs)).
Qed.

Lemma counted_value k recs : DD.value k (counted recs) = receipts k recs.
Proof.
  unfold counted. rewrite value_after_getitem.
  apply (nc_value _ _ (agrees_process recs)).
Qed.

Lemma NoDup_counted recs : NoDup (DD.keys (counted recs)).
Proof. rewrite counted_keys. apply NoDup_add_key, NoDup_numbers. Qed.

Lemma In_counted k v recs :
  In (k, v) (counted recs) <->
  v = receipts k recs /\ (k = 1 \/ In k (map number recs)).
Proof.
  rewrite <- In_numbers, <- (In_add_key 1 k), <- counted_keys. split.
  - intros Hin. split.
    + rewrite <- counted_value, value_lookup.
      now rewrite (In_items_lookup _ _ _ (NoDup_counted recs) Hin).
    + change k with (fst (k, v)). now apply in_map.
  - intros [-> Hk]. apply lookup_In_items.
    rewrite <- counted_value, value_lookup.
    apply lookup_In_keys in Hk. now destruct (DD.lookup k (counted recs)).
Qed.

(** A per-sequence-number report is printed for the observed numbers whose
    count is not the baseline, and for nothing else. *)
Lemma In_number_part k v n recs :
  In (NotReceived k v n) (number_part recs) <->
  In k (map number recs) /\ v = receipts k recs /\ n = baseline recs /\
  v <> n.
Proof.
  unfold number_part. rewrite In_number_loop, In_sorted.
  unfold DD.items. rewrite In_counted. unfold baseline. split.
  - intros (-> & [-> [->|Hk]] & Hv); try tauto.
  - intros (Hk & -> & -> & Hv). tauto.
Qed.

Lemma number_part_increasing recs :
  StronglySorted Z.lt (reported_numbers (number_part recs)).
Proof.
  unfold number_part. rewrite reported_numbers_loop.
  pose proof (sorted_by_key _ (NoDup_counted recs)) as SS.
  unfold DD.items. unfold DD.keys in SS.
  induction SS as [|x xs SS IH F]; simpl; [constructor|].
  destruct (negb (snd x =? baseline recs)); simpl; auto.
  constructor; auto.
  rewrite Forall_forall in *. intros k Hk.
  apply in_map_iff in Hk. destruct Hk as (y & <- & Hy).
  apply filter_In in Hy. apply F. tauto.
Qed.

(** ** Records and lines *)

Lemma parse_lines_length separator lines recs :
  parse_lines separator lines = Ok recs ->
  List.length recs = List.length lines.
Proof.
  revert recs. induction lines as [|l lines IH]; intros recs; simpl.
  - now intros [= <-].
  - destruct (parse_line separator l); simpl; try discriminate.
    destruct (parse_lines separator lines); simpl; try discriminate.
    intros [= <-]. simpl. f_equal. now apply IH.
Qed.

Lemma parse_lines_firstn separator lines recs n :
  parse_lines separator lines = Ok recs ->
  parse_lines separator (firstn n lines) = Ok (firstn n recs).
Proof.
  revert lines recs. induction n as [|n IH]; intros lines recs; simpl; auto.
  destruct lines as [|l lines]; simpl.
  - now intros [= <-].
  - destruct (parse_line separator l); simpl; try discriminate.
    destruct (parse_lines separator lines) eqn:E; simpl; try discriminate.
    intros [= <-]. now rewrite (IH _ _ E).
Qed.

Lemma parse_lines_Permutation separator lines lines' recs :
  Permutation lines lines' ->
  parse_lines separator lines = Ok recs ->
  exists recs',
    parse_lines separator lines' = Ok recs' /\ Permutation recs recs'.
Proof.
  intros P. revert recs.
  induction P as [|l ls ls' P IH|l1 l2 ls|ls1 ls2 ls3 P1 IH1 P2 IH2];
    intros recs; simpl.
  - intros [= <-]. now exists [].
  - destruct (parse_line separator l) as [r|]; simpl; try discriminate.
    destruct (parse_lines separator ls) as [rs|]; simpl; try discriminate.
    intros [= <-]. destruct (IH rs eq_refl) as (rs' & -> & Prs).
    exists (r :: rs'). simpl. auto.
  - destruct (parse_line separator l1) as [r1|]; simpl;
      destruct (parse_line separator l2) as [r2|]; simpl; try discriminate.
    destruct (parse_lines separator ls) as [rs|]; simpl; try discriminate.
    intros [= <-]. exists (r1 :: r2 :: rs). split; auto. constructor.
  - intros H1. destruct (IH1 _ H1) as (rs2 & H2 & Q1).
    destruct (IH2 _ H2) as (rs3 & H3 & Q2).
    exists rs3. split; auto. now transitivity rs2.
Qed.

Lemma receipts_Permutation k recs recs' :
  Permutation recs recs' -> receipts k recs = receipts k recs'.
Proof.
  unfold receipts. induction 1 as [|r rs rs' P IH|r1 r2 rs|? ? ? ? IH1 ? IH2];
    simpl; auto.
  - destruct (number r =? k); simpl; lia.
  - destruct (number r1 =? k), (number r2 =? k); simpl; lia.
  - lia.
Qed.

Lemma number_part_Permutation recs recs' :
  Permutation recs recs' -> number_part recs = number_part recs'.
Proof.
  intros P. unfold number_part, baseline.
  rewrite (receipts_Permutation 1 _ _ P). f_equal.
  apply (increasing_unique key_lt).
  - unfold key_lt. intros x. lia.
  - unfold key_lt. intros x y z. lia.
  - apply sorted_by_key, NoDup_counted.
  - apply sorted_by_key, NoDup_counted.
  - intros [k v]. rewrite !In_sorted. unfold DD.items. rewrite !In_counted.
    rewrite (receipts_Permutation k _ _ P).
    assert (In k (map number recs) <-> In k (map number recs')) as ->;
      [|tauto].
    split; apply Permutation_in; [|symmetry]; now apply Permutation_map.
Qed.

Lemma NotReceived_in_run k v n recs :
  In (NotReceived k v n)
     (operator_part recs ++ number_part recs ++ range_part recs ++
      [SawLines (Z.of_nat (List.length recs))]) <->
  In (NotReceived k v n) (number_part recs).
Proof.
  rewrite !in_app_iff. split; [|tauto].
  intros [Ho|[Hn|[Hr|Hs]]]; auto; exfalso.
  - pose proof (operator_part_check recs) as F.
    rewrite Forall_forall in F. specialize (F _ Ho). discriminate.
  - pose proof (range_part_check recs) as F.
    rewrite Forall_forall in F. specialize (F _ Hr). discriminate.
  - destruct Hs as [?|[]]. discriminate.
Qed.

(** ** The properties of the validation pass *)

(** C2. On a file whose lines all convert, the baseline that the checks read
    from [numberCount[1]] is the number of lines with sequence number 1, and
    the per-sequence-number check prints a report with the number, its count
    and the baseline for exactly the observed sequence numbers whose count is
    not the baseline. *)
Theorem baseline_and_sequence_check fs inputfile separator lines recs :
  fs inputfile = Some lines ->
  parse_lines separator lines = Ok recs ->
  exists s,
    scan separator lines initial = Ok s /\
    let numberOfParallelSources := fst (DD.getitem 1 (numberCount s)) in
    numberOfParallelSources =
      Z.of_nat (List.length (filter (fun r => number r =? 1) recs)) /\
    forall k v n,
      In (NotReceived k v n) (stdout (parse fs inputfile separator)) <->
      In k (map number recs) /\ v = receipts k recs /\
      n = numberOfParallelSources /\ v <> n.
Proof.
  intros Hf Hp. exists (process recs initial). split.
  - now apply scan_parse_lines.
  - cbv zeta. fold (DD.value 1 (numberCount (process recs initial))).
    rewrite (nc_value _ _ (agrees_process recs)). split; [reflexivity|].
    intros k v n. rewrite (parse_records _ _ _ _ _ Hf Hp). simpl.
    now rewrite NotReceived_in_run, In_number_part.
Qed.

Lemma baseline_and_sequence_check_witness :
  exists s,
    scan ";" [ln "t;2;a;1"; ln "t;0;a;2"; ln "t;0;b;1"; ln "t;1;a;3";
              ln "t;1;b;2"] initial = Ok s /\
    fst (DD.getitem 1 (numberCount s)) = 2.
Proof.
  destruct (baseline_and_sequence_check
              (one_file "log" [ln "t;2;a;1"; ln "t;0;a;2"; ln "t;0;b;1";
                               ln "t;1;a;3"; ln "t;1;b;2"])
              "log" ";" _ _ eq_refl eq_refl) as (s & Hs & Hn & _).
  exists s. split; [exact Hs | exact Hn].
Defined.

(** C4. On a file whose lines all convert, the expected total is the largest
    sequence number plus one, times the baseline, and the check prints its
    report, which carries the total line count, exactly when the total line
    count is not the expected total.  [max_number] starts at 0; the expected
    total is the same with the largest sequence number of the file. *)
Theorem total_against_range fs inputfile separator lines recs :
  fs inputfile = Some lines ->
  parse_lines separator lines = Ok recs ->
  exists s,
    scan separator lines initial = Ok s /\
    total_lines s = Z.of_nat (List.length lines) /\
    max_number s = max_seen recs /\
    let numberOfParallelSources := fst (DD.getitem 1 (numberCount s)) in
    let expectedTotal := (max_number s + 1) * numberOfParallelSources in
    (forall m,
       In m (map number recs) -> (forall r, In r recs -> number r <= m) ->
       expectedTotal = (m + 1) * numberOfParallelSources) /\
    printed_by RangeCheck (stdout (parse fs inputfile separator)) =
    if total_lines s =? expectedTotal then []
    else [LinesMismatch;
          LinesMismatchValues (total_lines s) (max_number s + 1)].
Proof.
  intros Hf Hp. exists (process recs initial).
  pose proof (agrees_process recs) as A.
  split; [now apply scan_parse_lines|].
  split; [rewrite (lines_total _ _ A); f_equal;
          now apply parse_lines_length with separator|].
  split; [apply (number_max _ _ A)|].
  cbv zeta. fold (DD.value 1 (numberCount (process recs initial))).
  rewrite (nc_value _ _ A), (number_max _ _ A). split.
  - intros m Hm Hmax.
    destruct (Z.eq_dec (receipts 1 recs) 0) as [->|Hb]; [lia|].
    assert (In 1 (map number recs)) as H1.
    { apply receipts_pos. pose proof (receipts_nonneg 1 recs). lia. }
    apply in_map_iff in H1. destruct H1 as (r1 & E1 & Hr1).
    apply in_map_iff in Hm. destruct Hm as (rm & Em & Hrm).
    pose proof (Hmax _ Hr1). pose proof (max_seen_ge _ _ Hrm).
    assert (max_seen recs <= m) by (apply max_seen_le; auto; lia).
    f_equal. lia.
  - rewrite (parse_records _ _ _ _ _ Hf Hp). simpl.
    rewrite printed_by_run, (lines_total _ _ A). reflexivity.
Qed.

Lemma total_against_range_witness :
  printed_by RangeCheck
    (stdout (parse (one_file "log" [ln "t,0,a,1"; ln "t,1,a,2"; ln "t,1,b,1"])
               "log" ",")) =
  [LinesMismatch; LinesMismatchValues 3 2].
Proof.
  destruct (total_against_range
              (one_file "log" [ln "t,0,a,1"; ln "t,1,a,2"; ln "t,1,b,1"])
              "log" "," _ _ eq_refl eq_refl) as (s & Hs & _ & _ & _ & Hr).
  injection Hs as <-. exact Hr.
Defined.

(** C5. On a file whose lines all convert, after every processed line the
    total line count is the sum of the per-operator line counts, and the
    check of the total against the per-operator counts prints nothing. *)
Theorem total_is_sum_of_operator_lines fs inputfile separator lines recs :
  fs inputfile = Some lines ->
  parse_lines separator lines = Ok recs ->
  (forall n, exists s,
      scan separator (firstn n lines) initial = Ok s /\
      total_lines s = Z.of_nat (List.length (firstn n lines)) /\
      total_lines s = sum (DD.values (totalOperatorCounts s))) /\
  printed_by PerOperatorCheck (stdout (parse fs inputfile separator)) = [].
Proof.
  intros Hf Hp. split.
  - intros n. exists (process (firstn n recs) initial).
    pose proof (parse_lines_firstn _ _ _ n Hp) as Hn.
    pose proof (agrees_process (firstn n recs)) as A.
    split; [now apply scan_parse_lines|].
    split.
    + rewrite (lines_total _ _ A). f_equal.
      now apply parse_lines_length with separator.
    + symmetry. apply (toc_sum _ _ A).
  - rewrite (parse_records _ _ _ _ _ Hf Hp). simpl.
    now rewrite printed_by_run.
Qed.

Lemma total_is_sum_of_operator_lines_witness :
  printed_by PerOperatorCheck
    (stdout (parse (one_file "log" [ln "t,0,a,1"; ln "t,1,a,2"; ln "t,1,b,1"])
               "log" ",")) = [].
Proof.
  exact (proj2 (total_is_sum_of_operator_lines
                  (one_file "log" [ln "t,0,a,1"; ln "t,1,a,2"; ln "t,1,b,1"])
                  "log" "," _ _ eq_refl eq_refl)).
Defined.

Lemma In_reported_numbers k out :
  In k (reported_numbers out) <-> exists v n, In (NotReceived k v n) out.
Proof.
  unfold reported_numbers. rewrite in_flat_map. split.
  - intros (o & Hin & Ho). destruct o; simpl in Ho; try contradiction.
    destruct Ho as [<-|[]]. eauto.
  - intros (v & n & Hin). exists (NotReceived k v n). split; auto. now left.
Qed.

Lemma number_loop_as_map (g : Z -> Z) items n :
  (forall k v, In (k, v) items -> v = g k) ->
  number_loop items n =
  map (fun k => NotReceived k (g k) n) (reported_numbers (number_loop items n)).
Proof.
  unfold number_loop. induction items as [|[k v] items IH]; intros Hg; simpl.
  - reflexivity.
  - rewrite reported_numbers_app, map_app, <- IH
      by (intros; apply Hg; now right).
    rewrite (Hg k v) by now left.
    now destruct (g k =? n).
Qed.

(** C9. On a file whose lines all convert, the per-sequence-number check
    reports the sequence numbers that fail it, those of the file whose count
    is not the baseline, and no other; it reports them in strictly ascending
    order of the numbers, each with its count and the baseline; and the
    reports are the same for every other order of the lines of the file. *)
Theorem sequence_reports_ascending fs inputfile separator lines recs :
  fs inputfile = Some lines ->
  parse_lines separator lines = Ok recs ->
  StronglySorted Z.lt
    (reported_numbers (stdout (parse fs inputfile separator))) /\
  (forall k,
     In k (reported_numbers (stdout (parse fs inputfile separator))) <->
     In k (map number recs) /\ receipts k recs <> baseline recs) /\
  printed_by NumberCheck (stdout (parse fs inputfile separator)) =
    map (fun k => NotReceived k (receipts k recs) (baseline recs))
      (reported_numbers (stdout (parse fs inputfile separator))) /\
  forall fs' lines',
    fs' inputfile = Some lines' -> Permutation lines lines' ->
    printed_by NumberCheck (stdout (parse fs' inputfile separator)) =
    printed_by NumberCheck (stdout (parse fs inputfile separator)).
Proof.
  intros Hf Hp. rewrite (parse_records _ _ _ _ _ Hf Hp). simpl.
  rewrite reported_numbers_run, printed_by_run.
  split; [|split; [|split]].
  - apply number_part_increasing.
  - intros k. rewrite In_reported_numbers. split.
    + intros (v & n & Hin). apply In_number_part in Hin.
      destruct Hin as (Hk & -> & -> & Hne). auto.
    + intros [Hk Hne]. exists (receipts k recs), (baseline recs).
      apply In_number_part. auto.
  - unfold number_part. apply number_loop_as_map.
    intros k v Hin. apply In_sorted, In_counted in Hin. tauto.
  - intros fs' lines' Hf' P.
    destruct (parse_lines_Permutation _ _ _ _ P Hp) as (recs' & Hp' & Q).
    rewrite (parse_records _ _ _ _ _ Hf' Hp'). simpl.
    rewrite !printed_by_run. symmetry. now apply number_part_Permutation.
Qed.

Lemma sequence_reports_ascending_witness :
  StronglySorted Z.lt
    (reported_numbers
       (stdout (parse (one_file "log" [ln "t,7,a,1"; ln "t,1,a,2";
                                        ln "t,3,a,3"; ln "t,1,b,1"])
                  "log" ","))) /\
  In 3 (reported_numbers
          (stdout (parse (one_file "log" [ln "t,7,a,1"; ln "t,1,a,2";
                                           ln "t,3,a,3"; ln "t,1,b,1"])
                     "log" ","))) /\
  In 7 (reported_numbers
          (stdout (parse (one_file "log" [ln "t,7,a,1"; ln "t,1,a,2";
                                           ln "t,3,a,3"; ln "t,1,b,1"])
                     "log" ","))).
Proof.
  destruct (sequence_reports_ascending
              (one_file "log" [ln "t,7,a,1"; ln "t,1,a,2"; ln "t,3,a,3";
                               ln "t,1,b,1"])
              "log" "," _ _ eq_refl eq_refl) as (Hsorted & Hfail & _).
  split; [exact Hsorted|].
  split; apply Hfail; (split; [simpl; tauto | vm_compute; discriminate]).
Defined.

Example sequence_reports_of_unordered_file :
  reported_numbers
    (stdout (parse (one_file "log" [ln "t,7,a,1"; ln "t,1,a,2"; ln "t,3,a,3";
                                     ln "t,1,b,1"])
               "log" ",")) = [3; 7].
Proof. vm_compute. reflexivity. Qed.

(** C10. On a file whose lines all convert and none of which has sequence
    number 1, the read of [numberCount[1]] inserts the key 1 with count 0 and
    the baseline is 0; every sequence number of the file has a positive count
    and is reported against the baseline 0, and the key 1 is not reported.
    (The statement needs no line in the file; with none, nothing is
    reported.) *)
Theorem baseline_without_number_one fs inputfile separator lines recs :
  fs inputfile = Some lines ->
  parse_lines separator lines = Ok recs ->
  forallb (fun r => negb (number r =? 1)) recs = true ->
  exists s,
    scan separator lines initial = Ok s /\
    DD.lookup 1 (numberCount s) = None /\
    DD.getitem 1 (numberCount s) = (0, numberCount s ++ [(1, 0)]) /\
    numberCount (snd (checks s)) = numberCount s ++ [(1, 0)] /\
    (forall k, In k (map number recs) ->
       0 < receipts k recs /\
       In (NotReceived k (receipts k recs) 0)
          (stdout (parse fs inputfile separator))) /\
    (forall v n,
       ~ In (NotReceived 1 v n) (stdout (parse fs inputfile separator))).
Proof.
  intros Hf Hp H1. exists (process recs initial).
  pose proof (agrees_process recs) as A.
  assert (~ In 1 (map number recs)) as N1.
  { rewrite forallb_forall in H1. intros Hin.
    apply in_map_iff in Hin. destruct Hin as (r & E & Hr).
    specialize (H1 r Hr). rewrite E in H1. discriminate. }
  assert (DD.lookup 1 (numberCount (process recs initial)) = None) as L1.
  { destruct (DD.lookup 1 (numberCount (process recs initial))) eqn:E; auto.
    exfalso. apply N1. rewrite <- In_numbers, <- (nc_keys _ _ A).
    apply lookup_In_keys. congruence. }
  assert (DD.getitem 1 (numberCount (process recs initial)) =
          (0, numberCount (process recs initial) ++ [(1, 0)])) as G1
    by (unfold DD.getitem; now rewrite L1).
  assert (baseline recs = 0) as B0.
  { unfold baseline. rewrite <- (nc_value _ _ A). unfold DD.value.
    now rewrite G1. }
  split; [now apply scan_parse_lines|].
  split; [exact L1|]. split; [exact G1|].
  split; [rewrite (checks_agrees _ _ A); simpl; now rewrite G1|].
  rewrite (parse_records _ _ _ _ _ Hf Hp). simpl. split.
  - intros k Hk. pose proof (proj2 (receipts_pos k recs) Hk) as Hpos.
    split; auto. rewrite NotReceived_in_run, In_number_part, B0.
    repeat split; auto. lia.
  - intros v n. rewrite NotReceived_in_run, In_number_part. tauto.
Qed.

Lemma baseline_without_number_one_witness :
  In (NotReceived 0 2 0)
     (stdout (parse (one_file "log" [ln "t,0,a,1"; ln "t,2,a,2"; ln "t,0,b,1"])
                "log" ",")).
Proof.
  destruct (baseline_without_number_one
              (one_file "log" [ln "t,0,a,1"; ln "t,2,a,2"; ln "t,0,b,1"])
              "log" "," _ _ eq_refl eq_refl eq_refl)
    as (s & _ & _ & _ & _ & Hrep & _).
  exact (proj2 (Hrep 0 (or_introl eq_refl))).
Defined.

Example run_without_number_one :
  stdout (parse (one_file "log" [ln "t,0,a,1"; ln "t,2,a,2"; ln "t,0,b,1"])
            "log" ",")
  = [NotReceived 0 2 0; NotReceived 2 1 0; LinesMismatch;
     LinesMismatchValues 3 3; SawLines 3].
Proof. vm_compute. reflexivity. Qed.

(** ** Lines that do not convert *)

Lemma parse_line_malformed separator l :
  malformed separator l = true -> parse_line separator l = Raise ValueError.
Proof.
  unfold malformed, parse_line.
  destruct (PyStr.split separator l) as [fields|]; simpl; auto.
  destruct fields as [|f1 [|f2 [|f3 [|f4 [|f5 fields]]]]]; simpl; auto.
  destruct (PyStr.int f2); simpl; auto.
  destruct (PyStr.int f4); simpl; auto. discriminate.
Qed.

Lemma parse_line_wellformed separator l :
  malformed separator l = false -> exists r, parse_line separator l = Ok r.
Proof.
  unfold malformed, parse_line.
  destruct (PyStr.split separator l) as [fields|]; simpl; try discriminate.
  destruct fields as [|f1 [|f2 [|f3 [|f4 [|f5 fields]]]]]; simpl;
    try discriminate.
  destruct (PyStr.int f2); simpl; try discriminate.
  destruct (PyStr.int f4); simpl; try discriminate. eauto.
Qed.

Lemma scan_app separator l1 l2 s :
  scan separator (l1 ++ l2) s =
  (s' <- scan separator l1 s ;; scan separator l2 s').
Proof.
  revert s. induction l1 as [|l l1 IH]; intros s; simpl; auto.
  destruct (loop_body separator l s); simpl; auto.
Qed.

Lemma scan_wellformed separator lines s :
  forallb (fun l => negb (malformed separator l)) lines = true ->
  exists s', scan separator lines s = Ok s'.
Proof.
  revert s. induction lines as [|l lines IH]; intros s; simpl; eauto.
  rewrite andb_true_iff, negb_true_iff. intros [Hl Hrest].
  destruct (parse_line_wellformed _ _ Hl) as (r & Hr).
  unfold loop_body. rewrite Hr. simpl. now apply IH.
Qed.

(** C6. When the file has a line that does not split into four fields, or
    whose second or fourth field is not an integer, the run ends at the first
    such line with an exception that nothing catches: the lines before it
    were processed, the loop body raises on it, whatever follows it plays no
    part, and nothing is printed. *)
Theorem malformed_line_aborts fs inputfile separator before bad after :
  fs inputfile = Some (before ++ bad :: after) ->
  forallb (fun l => negb (malformed separator l)) before = true ->
  malformed separator bad = true ->
  (exists s, scan separator before initial = Ok s /\
             loop_body separator bad s = Raise ValueError) /\
  scan separator (before ++ bad :: after) initial = Raise ValueError /\
  parse fs inputfile separator =
  {| opened := [inputfile]; stdout := []; status_of := Uncaught ValueError |}.
Proof.
  intros Hf Hb Hbad.
  destruct (scan_wellformed _ _ initial Hb) as (s & Hs).
  assert (loop_body separator bad s = Raise ValueError) as Hl
    by (unfold loop_body; now rewrite (parse_line_malformed _ _ Hbad)).
  assert (scan separator (before ++ bad :: after) initial = Raise ValueError)
    as Hscan by (rewrite scan_app, Hs; simpl; now rewrite Hl).
  split; [eauto|]. split; [exact Hscan|].
  unfold parse. now rewrite Hf, Hscan.
Qed.

Lemma malformed_line_aborts_witness :
  parse (one_file "log" [ln "t,0,a,1"; ln "t,x,a,2"; ln "t,1,a,3"]) "log" ","
  = {| opened := ["log"]; stdout := []; status_of := Uncaught ValueError |}.
Proof.
  exact (proj2 (proj2 (malformed_line_aborts
                         (one_file "log" [ln "t,0,a,1"; ln "t,x,a,2";
                                          ln "t,1,a,3"])
                         "log" "," [ln "t,0,a,1"] (ln "t,x,a,2")
                         [ln "t,1,a,3"] eq_refl eq_refl eq_refl))).
Defined.

Example malformed_lines :
  malformed "," (ln "t,0,a") = true /\
  malformed "," (ln "t,0,a,1,2") = true /\
  malformed "," (ln "t,0,a,one") = true /\
  malformed "," (ln "t, 0 , a , 1") = false.
Proof. repeat split; reflexivity. Qed.

(** ** The command line *)

Lemma startswith_append m s : PyStr.startswith m (m ++ s)%string = true.
Proof.
  induction m as [|c m IH]; simpl; auto. now rewrite Ascii.eqb_refl.
Qed.

Lemma startswith_spec m s :
  PyStr.startswith m s = true <-> exists post, s = (m ++ post)%string.
Proof.
  split.
  - revert s. induction m as [|c m IH]; intros s; simpl.
    + exists s. reflexivity.
    + destruct s as [|b s]; try discriminate.
      rewrite andb_true_iff, Ascii.eqb_eq. intros [-> Hs].
      destruct (IH _ Hs) as (post & ->). now exists post.
  - intros (post & ->). apply startswith_append.
Qed.

(** [contains] is Python's [in]: the marker stands somewhere in the string. *)
Lemma contains_spec m s :
  PyStr.contains m s = true <->
  exists pre post, s = (pre ++ m ++ post)%string.
Proof.
  split.
  - induction s as [|c s IH]; simpl; rewrite orb_true_iff; intros [Hs|Hs].
    + apply startswith_spec in Hs. destruct Hs as (post & ->).
      now exists EmptyString, post.
    + discriminate.
    + apply startswith_spec in Hs. destruct Hs as (post & ->).
      now exists EmptyString, post.
    + destruct (IH Hs) as (pre & post & ->).
      now exists (String c pre), post.
  - intros (pre & post & ->). induction pre as [|c pre IH].
    + change (PyStr.contains m (m ++ post)%string = true).
      pose proof (startswith_append m post) as Hs.
      destruct (m ++ post)%string; simpl; now rewrite Hs.
    + change (PyStr.contains m (String c (pre ++ m ++ post)) = true).
      simpl. rewrite IH. apply orb_true_r.
Qed.

(** C7. With no argument or with more than two, the program prints the usage
    message, opens no file and exits with code 2; with exactly one argument
    it validates that file with the separator [","]. *)
Theorem usage_guard fs argv inputfile :
  (List.length argv = 0 \/ 2 < List.length argv)%nat ->
  main fs argv =
    {| opened := []; stdout := [Usage]; status_of := SysExit 2 |} /\
  exit_code (status_of (main fs argv)) = 2 /\
  main fs [inputfile] = parse fs inputfile ",".
Proof.
  intros Hlen.
  assert (main fs argv =
          {| opened := []; stdout := [Usage]; status_of := SysExit 2 |}) as E.
  { unfold main.
    destruct argv as [|a [|b [|c argv]]]; simpl in *; auto; lia. }
  rewrite E. repeat split.
Qed.

Lemma usage_guard_witness :
  main (one_file "log" [ln "t,0,a,1"]) ["log"; "--separator=;"; "more"] =
  {| opened := []; stdout := [Usage]; status_of := SysExit 2 |}.
Proof.
  apply (usage_guard (one_file "log" [ln "t,0,a,1"])
           ["log"; "--separator=;"; "more"] "log").
  right. simpl. lia.
Defined.

(** C8. With two arguments, when the second contains ["--separator="] the
    separator is the second argument from its offset 12 on, which is the text
    after the marker when the argument starts with the marker; when the
    second argument does not contain the marker the separator stays [","]
    and the validation runs. *)
Theorem separator_option fs inputfile option :
  main fs [inputfile; option] =
    parse fs inputfile
      (if PyStr.contains "--separator=" option
       then PyStr.slice_from 12 option
       else ",") /\
  String.length "--separator=" = 12%nat /\
  forall value,
    main fs [inputfile; ("--separator=" ++ value)%string] =
    parse fs inputfile value.
Proof.
  split; [|split].
  - unfold main. simpl. now destruct (PyStr.contains "--separator=" option).
  - reflexivity.
  - intros value. unfold main.
    cbn [List.length Nat.ltb Nat.leb Nat.eqb orb andb nth].
    assert (PyStr.contains "--separator=" ("--separator=" ++ value) = true)
      as -> by (apply contains_spec; now exists EmptyString, value).
    reflexivity.
Qed.

Example separator_marker_not_first :
  forall fs, main fs ["log"; "x--separator=;"] = parse fs "log" "=;".
Proof. reflexivity. Qed.

(** ** The operator-count check *)

Lemma last_reported_snoc op recs r :
  last_reported op (recs ++ [r]) =
  if String.eqb (name r) op then Some (operator_count r)
  else last_reported op recs.
Proof. unfold last_reported. now rewrite fold_left_app. Qed.

Lemma last_reported_In op recs v :
  last_reported op recs = Some v ->
  exists r, In r recs /\ name r = op /\ operator_count r = v.
Proof.
  induction recs as [|r recs IH] using rev_ind; [discriminate|].
  rewrite last_reported_snoc. destruct (String.eqb_spec (name r) op).
  - intros [= <-]. exists r. rewrite in_app_iff. simpl. auto.
  - intros Hl. destruct (IH Hl) as (r' & Hin & Hr). exists r'.
    rewrite in_app_iff. auto.
Qed.

Lemma max_reported_nonneg op recs : 0 <= max_reported op recs.
Proof.
  induction recs as [|r recs IH] using rev_ind; [reflexivity|].
  rewrite max_reported_snoc. destruct (String.eqb op (name r)); lia.
Qed.

Lemma max_reported_le op recs b :
  0 <= b ->
  (forall r, In r recs -> name r = op -> operator_count r <= b) ->
  max_reported op recs <= b.
Proof.
  intros Hb. induction recs as [|r recs IH] using rev_ind; intros Hall.
  - exact Hb.
  - rewrite max_reported_snoc.
    assert (max_reported op recs <= b) as Hrec.
    { apply IH. intros r' Hr'. apply Hall. rewrite in_app_iff. auto. }
    destruct (String.eqb_spec op (name r)); auto.
    assert (operator_count r <= b)
      by (apply Hall; [rewrite in_app_iff; simpl|]; auto).
    lia.
Qed.

Lemma max_reported_ge op recs r :
  In r recs -> name r = op -> operator_count r <= max_reported op recs.
Proof.
  induction recs as [|r' recs IH] using rev_ind; [contradiction|].
  rewrite in_app_iff, max_reported_snoc. simpl. intros [Hin|[->|[]]] Hn.
  - specialize (IH Hin Hn). destruct (String.eqb op (name r')); lia.
  - subst op. rewrite String.eqb_refl. lia.
Qed.

Lemma unseen_operator op recs :
  ~ In op (map name recs) ->
  max_reported op recs = 0 /\ lines_of op recs = 0.
Proof.
  intros Hn. split.
  - apply Z.le_antisymm; [|apply max_reported_nonneg].
    apply max_reported_le; [lia|]. intros r Hr E. exfalso. apply Hn.
    rewrite <- E. now apply in_map.
  - assert (~ 0 < lines_of op recs) as P by now rewrite lines_of_pos.
    unfold lines_of in *. lia.
Qed.

Lemma flat_map_nil {A B : Type} (f : A -> list B) (l : list A) :
  (forall y, In y l -> f y = []) -> flat_map f l = [].
Proof.
  induction l as [|a l IH]; intros Hall; simpl; auto.
  rewrite (Hall a) by now left. apply IH. intros; apply Hall; now right.
Qed.

Lemma flat_map_single {A B : Type} (f : A -> list B) (x : A) (l : list A) :
  NoDup l -> In x l ->
  (forall y, In y l -> y <> x -> f y = []) ->
  flat_map f l = f x.
Proof.
  induction 1 as [|a l Ha ND IH]; simpl; [contradiction|].
  intros [->|Hin] Hall.
  - assert (flat_map f l = []) as ->; [|apply app_nil_r].
    apply flat_map_nil. intros y Hy.
    apply Hall; auto. intros ->. contradiction.
  - rewrite (Hall a) by (auto; intros ->; contradiction).
    simpl. apply IH; auto.
Qed.

(** C3, as the sentence reads: an operator whose last count is not the number
    of its lines goes unreported when an earlier line of it carried the right
    count. *)
Lemma last_count_counterexample :
  parse_lines "," [ln "t,0,a,2"; ln "t,1,a,1"] =
    Ok [ {| timestamp := "t"; number := 0; name := "a"; operator_count := 2 |};
         {| timestamp := "t"; number := 1; name := "a"; operator_count := 1 |} ]
  /\ (forall recs,
        parse_lines "," [ln "t,0,a,2"; ln "t,1,a,1"] = Ok recs ->
        last_differs "a" recs = true /\ others_last_agree "a" recs = true /\
        last_reported "a" recs = Some 1 /\ lines_of "a" recs = 2)
  /\ stdout (parse (one_file "log" [ln "t,0,a,2"; ln "t,1,a,1"]) "log" ",")
     = [SawLines 2]
  /\ printed_by OperatorCheck
       (stdout (parse (one_file "log" [ln "t,0,a,2"; ln "t,1,a,1"]) "log" ","))
     <> [OperatorSumMismatch "a"; OperatorSumValues 1 2].
Proof.
  split; [reflexivity|]. split; [|split].
  - intros recs [= <-]. repeat split; reflexivity.
  - vm_compute. reflexivity.
  - vm_compute. discriminate.
Qed.

(** The other way round: the last count of an operator is right and the
    operator is reported, for an earlier larger count. *)
Example larger_earlier_count_is_reported :
  stdout (parse (one_file "log" [ln "t,0,a,5"; ln "t,1,a,2"]) "log" ",")
  = [OperatorSumMismatch "a"; OperatorSumValues 5 2; SawLines 2].
Proof. vm_compute. reflexivity. Qed.

(** C3, amended. On a file whose lines all convert, when [op] is the one
    operator whose recorded maximum (the largest count it reported, or 0) is
    not the number of its lines, the operator-count check prints its two
    lines for [op], with the recorded maximum and the number of lines, and
    nothing else. *)
Theorem operator_check_flags_the_mismatch
    fs inputfile separator lines recs op :
  fs inputfile = Some lines ->
  parse_lines separator lines = Ok recs ->
  max_reported op recs <> lines_of op recs ->
  others_agree op recs = true ->
  exists s,
    scan separator lines initial = Ok s /\
    DD.value op (maxOperatorSum s) = max_reported op recs /\
    DD.value op (totalOperatorCounts s) = lines_of op recs /\
    printed_by OperatorCheck (stdout (parse fs inputfile separator)) =
    [OperatorSumMismatch op;
     OperatorSumValues (DD.value op (maxOperatorSum s))
                       (DD.value op (totalOperatorCounts s))].
Proof.
  intros Hf Hp Hd Ho. exists (process recs initial).
  pose proof (agrees_process recs) as A.
  split; [now apply scan_parse_lines|].
  split; [apply (mos_value _ _ A)|]. split; [apply (toc_value _ _ A)|].
  rewrite (mos_value _ _ A), (toc_value _ _ A).
  rewrite (parse_records _ _ _ _ _ Hf Hp). simpl. rewrite printed_by_run.
  unfold operator_part. rewrite flat_map_single with (x := op).
  - destruct (Z.eqb_spec (max_reported op recs) (lines_of op recs));
      [contradiction|reflexivity].
  - apply NoDup_operators.
  - apply In_operators.
    destruct (in_dec string_dec op (map name recs)) as [|Hn]; auto.
    destruct (unseen_operator _ _ Hn). congruence.
  - intros op' Hin Hne. unfold others_agree in Ho.
    rewrite forallb_forall in Ho. specialize (Ho _ Hin).
    apply orb_true_iff in Ho. destruct Ho as [Ho|Ho].
    + apply String.eqb_eq in Ho. contradiction.
    + now rewrite Ho.
Qed.

Lemma operator_check_flags_the_mismatch_witness :
  exists s,
    printed_by OperatorCheck
      (stdout (parse (one_file "log" [ln "t,0,a,1"; ln "t,0,b,1";
                                       ln "t,1,a,2"; ln "t,1,b,3"])
                 "log" ",")) =
    [OperatorSumMismatch "b";
     OperatorSumValues (DD.value "b" (maxOperatorSum s))
                       (DD.value "b" (totalOperatorCounts s))] /\
    DD.value "b" (maxOperatorSum s) = 3 /\
    DD.value "b" (totalOperatorCounts s) = 2.
Proof.
  destruct (operator_check_flags_the_mismatch
              (one_file "log" [ln "t,0,a,1"; ln "t,0,b,1"; ln "t,1,a,2";
                               ln "t,1,b,3"])
              "log" "," _ _ "b" eq_refl eq_refl)
    as (s & _ & Hm & Hc & Hout).
  - vm_compute. discriminate.
  - reflexivity.
  - exists s. split; [exact Hout|]. split; [exact Hm | exact Hc].
Defined.

(** ** Generated logs *)

Lemma receipts_filter_other k n recs :
  k <> n ->
  receipts k (filter (fun r => negb (number r =? n)) recs) = receipts k recs.
Proof.
  intros Hk. unfold receipts. induction recs as [|r recs IH]; simpl; auto.
  destruct (Z.eqb_spec (number r) n) as [E|E]; simpl.
  - destruct (Z.eqb_spec (number r) k); [lia|]. exact IH.
  - destruct (number r =? k); simpl; lia.
Qed.

(** Lines with sequence numbers below [N], [S] of them for each number:
    [S * N] lines. *)
Lemma uniform_receipts_length S N : forall recs,
  (forall r, In r recs -> 0 <= number r < Z.of_nat N) ->
  (forall k, (k < N)%nat -> receipts (Z.of_nat k) recs = S) ->
  Z.of_nat (List.length recs) = S * Z.of_nat N.
Proof.
  induction N as [|N IH]; intros recs Hb Hr.
  - destruct recs as [|r recs]; simpl; [lia|].
    specialize (Hb r (or_introl eq_refl)). lia.
  - pose proof (filter_length (fun r => number r =? Z.of_nat N) recs) as L.
    pose proof (Hr N (Nat.lt_succ_diag_r N)) as HN. unfold receipts in HN.
    assert (Z.of_nat (List.length
              (filter (fun r => negb (number r =? Z.of_nat N)) recs)) =
            S * Z.of_nat N) as IH'; [apply IH|lia].
    + intros r Hin. apply filter_In in Hin. destruct Hin as [Hin Hne].
      specialize (Hb r Hin). apply negb_true_iff, Z.eqb_neq in Hne. lia.
    + intros k Hk. rewrite receipts_filter_other by lia. apply Hr. lia.
Qed.

Lemma generated_spec S N recs :
  generated S N recs = true ->
  (forall r, In r recs -> 0 <= number r < Z.of_nat N) /\
  (forall k, (k < N)%nat -> receipts (Z.of_nat k) recs = Z.of_nat S) /\
  (forall r, In r recs -> operator_count r <= lines_of (name r) recs) /\
  (forall op, In op (operators recs) ->
     last_reported op recs = Some (lines_of op recs)).
Proof.
  unfold generated. rewrite !andb_true_iff, !forallb_forall.
  intros [[[H1 H2] H3] H4]. repeat split.
  - specialize (H1 _ H). apply andb_true_iff in H1. lia.
  - specialize (H1 _ H). apply andb_true_iff in H1. lia.
  - intros k Hk. apply Z.eqb_eq, H2, in_seq. lia.
  - intros r Hr. apply Z.leb_le. auto.
  - intros op Hop. specialize (H4 _ Hop).
    destruct (last_reported op recs); try discriminate.
    apply Z.eqb_eq in H4. now subst.
Qed.

Lemma generated_operators_agree S N recs op :
  generated S N recs = true -> In op (operators recs) ->
  max_reported op recs = lines_of op recs.
Proof.
  intros G Hop. destruct (generated_spec _ _ _ G) as (_ & _ & Hle & Hlast).
  apply Z.le_antisymm.
  - apply max_reported_le; [unfold lines_of; lia|].
    intros r Hr <-. now apply Hle.
  - destruct (last_reported_In _ _ _ (Hlast op Hop)) as (r & Hr & Hn & <-).
    now apply max_reported_ge.
Qed.

(** C1, as the sentence reads: with a single sequence number, 0, no line has
    sequence number 1, the baseline is 0 and two checks report. *)
Lemma single_number_counterexample :
  parse_lines "," [ln "t,0,a,1"] =
    Ok [ {| timestamp := "t"; number := 0; name := "a";
            operator_count := 1 |} ]
  /\ generated 1 1
       [ {| timestamp := "t"; number := 0; name := "a";
            operator_count := 1 |} ] = true
  /\ stdout (parse (one_file "log" [ln "t,0,a,1"]) "log" ",")
     = [NotReceived 0 1 0; LinesMismatch; LinesMismatchValues 1 1; SawLines 1]
  /\ stdout (parse (one_file "log" [ln "t,0,a,1"]) "log" ",")
     <> [SawLines (1 * 1)].
Proof.
  split; [reflexivity|]. split; [reflexivity|]. split.
  - vm_compute. reflexivity.
  - vm_compute. discriminate.
Qed.

(** C1, amended. For a log in which each of the sequence numbers below [N]
    has [S] lines and every operator reports counts up to the number of its
    lines and that number on its last line, when the log has lines with
    sequence number 1 ([N] is not 1) or no line at all, the run prints the
    summary with the total [S * N] and nothing else. *)
Theorem generated_log_passes fs inputfile separator lines recs S N :
  fs inputfile = Some lines ->
  parse_lines separator lines = Ok recs ->
  generated S N recs = true ->
  (N <> 1 \/ S = 0)%nat ->
  parse fs inputfile separator =
  {| opened := [inputfile];
     stdout := [SawLines (Z.of_nat S * Z.of_nat N)];
     status_of := Finished |}.
Proof.
  intros Hf Hp G HN. rewrite (parse_records _ _ _ _ _ Hf Hp).
  destruct (generated_spec _ _ _ G) as (Hb & Hr & _ & _).
  pose proof (uniform_receipts_length _ _ _ Hb Hr) as Hlen.
  assert (operator_part recs = []) as ->.
  { apply flat_map_nil. intros op Hop.
    now rewrite (generated_operators_agree _ _ _ _ G Hop), Z.eqb_refl. }
  assert (recs = [] \/ exists r0, In r0 recs) as [->|(r0 & Hin)]
    by (destruct recs as [|r0 ?]; [now left | right; exists r0; now left]).
  { simpl in Hlen. rewrite <- Hlen. reflexivity. }
  assert (2 <= N /\ 1 <= S)%nat as [HN2 HS1].
  { pose proof (Hb _ Hin) as Hb0.
    pose proof (proj2 (receipts_pos (number r0) recs) (in_map _ _ _ Hin)).
    assert (receipts (number r0) recs = Z.of_nat S) as E.
    { rewrite <- (Z2Nat.id (number r0)) by lia. apply Hr. lia. }
    lia. }
  assert (baseline recs = Z.of_nat S) as HB by (apply (Hr 1%nat); lia).
  assert (number_part recs = []) as ->.
  { apply number_loop_nil. intros k v. rewrite In_sorted. unfold DD.items.
    rewrite In_counted, HB. intros [-> [->|Hk]].
    - exact HB.
    - apply in_map_iff in Hk. destruct Hk as (r & <- & Hr').
      pose proof (Hb _ Hr'). rewrite <- (Z2Nat.id (number r)) by lia.
      apply Hr. lia. }
  assert (max_seen recs = Z.of_nat N - 1) as HM.
  { apply Z.le_antisymm.
    - apply max_seen_le; [lia|]. intros r Hr'. specialize (Hb _ Hr'). lia.
    - assert (0 < receipts (Z.of_nat (N - 1)) recs) as Hpos
        by (rewrite Hr; lia).
      apply receipts_pos, in_map_iff in Hpos.
      destruct Hpos as (r & E & Hr').
      pose proof (max_seen_ge _ _ Hr'). lia. }
  unfold range_part. cbv zeta. rewrite HM, HB, Hlen.
  replace ((Z.of_nat N - 1 + 1) * Z.of_nat S) with (Z.of_nat S * Z.of_nat N)
    by lia.
  rewrite Z.eqb_refl. reflexivity.
Qed.

Lemma generated_log_passes_witness :
  parse (one_file "log" [ln "t,0,a,1"; ln "t,0,b,1"; ln "t,1,b,2";
                         ln "t,2,a,2"; ln "t,1,a,3"; ln "t,2,b,3"])
        "log" ","
  = {| opened := ["log"]; stdout := [SawLines (2 * 3)];
       status_of := Finished |}.
Proof.
  apply (generated_log_passes
           (one_file "log" [ln "t,0,a,1"; ln "t,0,b,1"; ln "t,1,b,2";
                            ln "t,2,a,2"; ln "t,1,a,3"; ln "t,2,b,3"])
           "log" "," _ _ 2 3 eq_refl eq_refl eq_refl).
  left. lia.
Defined.


(** ** How a run ends *)

Lemma scan_result separator lines s :
  if existsb (malformed separator) lines
  then scan separator lines s = Raise ValueError
  else exists s', scan separator lines s = Ok s'.
Proof.
  revert s. induction lines as [|l lines IH]; intros s; simpl; eauto.
  unfold loop_body. destruct (malformed separator l) eqn:E; simpl.
  - now rewrite (parse_line_malformed _ _ E).
  - destruct (parse_line_wellformed _ _ E) as (r & ->). simpl. apply IH.
Qed.

Lemma checks_only_reports s recs o :
  agrees recs s -> In o (fst (checks s)) ->
  check_of o <> UsageMessage /\ check_of o <> PerOperatorCheck.
Proof.
  intros A. rewrite (checks_agrees _ _ A). simpl. rewrite !in_app_iff.
  pose proof (operator_part_check recs) as F1.
  pose proof (number_loop_check
                (sorted (DD.items (snd (DD.getitem 1 (numberCount s)))))
                (baseline recs)) as F2.
  pose proof (range_part_check recs) as F3.
  rewrite Forall_forall in F1, F2, F3.
  intros [Ho|[Ho|[Ho|[<-|[]]]]];
    [rewrite (F1 _ Ho)|rewrite (F2 _ Ho)|rewrite (F3 _ Ho)|simpl];
    split; discriminate.
Qed.

Lemma parse_never_usage fs inputfile separator :
  ~ In Usage (stdout (parse fs inputfile separator)) /\
  (exit_code (status_of (parse fs inputfile separator)) = 0 \/
   exit_code (status_of (parse fs inputfile separator)) = 1).
Proof.
  unfold parse. destruct (fs inputfile) as [lines|]; simpl; auto.
  destruct (scan separator lines initial) as [s|e] eqn:E; simpl; auto.
  split; auto. intros Hin.
  destruct (scan_Ok_parse_lines _ _ _ _ E) as (recs & _ & ->).
  destruct (checks_only_reports _ _ _ (agrees_process recs) Hin) as [H _].
  now apply H.
Qed.

(** X1. The exit status 2 and the usage message stand for a wrong number of
    arguments and for nothing else: whatever the file holds, a run with one
    or two arguments neither exits with 2 nor prints the usage message. *)
Theorem exit_code_two_iff_usage fs argv :
  (exit_code (status_of (main fs argv)) = 2 <->
   (List.length argv = 0 \/ 2 < List.length argv)%nat) /\
  (In Usage (stdout (main fs argv)) <->
   (List.length argv = 0 \/ 2 < List.length argv)%nat).
Proof.
  destruct argv as [|a [|b [|c argv]]].
  - simpl. split; split; auto.
  - change (main fs [a]) with (parse fs a ",").
    destruct (parse_never_usage fs a ",") as [Hu Hc].
    simpl List.length. split; split; try lia; tauto.
  - assert (exists separator, main fs [a; b] = parse fs a separator)
      as (separator & ->).
    { unfold main. simpl.
      destruct (PyStr.contains "--separator=" b); eauto. }
    destruct (parse_never_usage fs a separator) as [Hu Hc].
    simpl List.length. split; split; try lia; tauto.
  - unfold main. simpl. split; split; auto; intros _; right; lia.
Qed.

(** X2. How [parse] ends on files that decode as text: with the exception
    that [open] raised when the file does not open, with the [ValueError] of
    the loop body when the file opens and one of its lines is malformed for
    the separator, and normally otherwise; only a run that ends normally
    prints anything. *)
Theorem parse_status fs inputfile separator :
  status_of (parse fs inputfile separator) =
    match fs inputfile with
    | None => Uncaught OpenError
    | Some lines =>
        if existsb (malformed separator) lines then Uncaught ValueError
        else Finished
    end /\
  (status_of (parse fs inputfile separator) = Finished \/
   stdout (parse fs inputfile separator) = []).
Proof.
  unfold parse. destruct (fs inputfile) as [lines|]; simpl; auto.
  pose proof (scan_result separator lines initial) as R.
  destruct (existsb (malformed separator) lines).
  - rewrite R. simpl. auto.
  - destruct R as (s & ->). simpl. auto.
Qed.

(** X3. A run over a file whose lines all convert prints the reports of the
    operator-count check, then those of the per-sequence-number check, then
    those of the range check, and last the summary with the number of lines
    of the file; it prints nothing else. *)
Theorem report_layout fs inputfile separator lines recs :
  fs inputfile = Some lines ->
  parse_lines separator lines = Ok recs ->
  stdout (parse fs inputfile separator) =
    printed_by OperatorCheck (stdout (parse fs inputfile separator)) ++
    printed_by NumberCheck (stdout (parse fs inputfile separator)) ++
    printed_by RangeCheck (stdout (parse fs inputfile separator)) ++
    [SawLines (Z.of_nat (List.length lines))].
Proof.
  intros Hf Hp. rewrite (parse_records _ _ _ _ _ Hf Hp). simpl.
  rewrite !printed_by_run.
  now rewrite (parse_lines_length _ _ _ Hp).
Qed.

Lemma report_layout_witness :
  stdout (parse (one_file "log" [ln "t,0,a,3"; ln "t,2,a,1"]) "log" ",") =
  [OperatorSumMismatch "a"; OperatorSumValues 3 2] ++
  [NotReceived 0 1 0; NotReceived 2 1 0] ++
  [LinesMismatch; LinesMismatchValues 2 3] ++ [SawLines 2].
Proof.
  exact (report_layout (one_file "log" [ln "t,0,a,3"; ln "t,2,a,1"])
           "log" "," _ _ eq_refl eq_refl).
Defined.

(** X4. With the empty separator, which the argument [--separator=] gives,
    no line can be split: the run raises [ValueError] on the first line of
    the file and prints nothing; only an empty file passes, as it does for
    every separator, with the summary of 0 lines. *)
Theorem empty_separator fs inputfile lines :
  fs inputfile = Some lines ->
  main fs [inputfile; "--separator="] = parse fs inputfile "" /\
  parse fs inputfile "" =
    match lines with
    | [] => {| opened := [inputfile]; stdout := [SawLines 0];
               status_of := Finished |}
    | _ :: _ => {| opened := [inputfile]; stdout := [];
                   status_of := Uncaught ValueError |}
    end /\
  forall separator,
    lines = [] ->
    parse fs inputfile separator =
    {| opened := [inputfile]; stdout := [SawLines 0]; status_of := Finished |}.
Proof.
  intros Hf. split; [reflexivity|]. split.
  - unfold parse. rewrite Hf. now destruct lines.
  - intros separator ->. unfold parse. now rewrite Hf.
Qed.

Lemma empty_separator_witness :
  parse (one_file "log" [ln "t,0,a,1"]) "log" "" =
  {| opened := ["log"]; stdout := []; status_of := Uncaught ValueError |}.
Proof.
  exact (proj1 (proj2 (empty_separator (one_file "log" [ln "t,0,a,1"])
                         "log" _ eq_refl))).
Defined.

(** ** What the checks report, in general *)

Lemma In_printed_by o c out :
  In o (printed_by c out) <-> In o out /\ check_eqb (check_of o) c = true.
Proof. apply filter_In. Qed.

Lemma check_eqb_refl c : check_eqb c c = true.
Proof. now destruct c. Qed.

Lemma In_operator_part o recs :
  check_of o = OperatorCheck ->
  In o (operator_part recs ++ number_part recs ++ range_part recs ++
        [SawLines (Z.of_nat (List.length recs))]) <->
  In o (operator_part recs).
Proof.
  intros Hc. rewrite <- (printed_by_run OperatorCheck recs) at 2.
  rewrite In_printed_by, Hc. simpl. tauto.
Qed.

Lemma In_operator_part_mismatch op recs :
  In (OperatorSumMismatch op) (operator_part recs) <->
  In op (map name recs) /\ max_reported op recs <> lines_of op recs.
Proof.
  unfold operator_part. rewrite in_flat_map, <- In_operators. split.
  - intros (op' & Hin & Ho).
    destruct (Z.eqb_spec (max_reported op' recs) (lines_of op' recs));
      simpl in Ho; [tauto|].
    destruct Ho as [[= <-]|[Ho|[]]]; [split; assumption|discriminate].
  - intros [Hin Hne]. exists op. split; auto.
    destruct (Z.eqb_spec (max_reported op recs) (lines_of op recs));
      [contradiction|]. now left.
Qed.

Lemma In_operator_part_values m c recs :
  In (OperatorSumValues m c) (operator_part recs) <->
  exists op, In op (map name recs) /\ m = max_reported op recs /\
             c = lines_of op recs /\ m <> c.
Proof.
  unfold operator_part. rewrite in_flat_map. split.
  - intros (op & Hin & Ho). exists op. rewrite <- In_operators.
    destruct (Z.eqb_spec (max_reported op recs) (lines_of op recs));
      simpl in Ho; [tauto|].
    destruct Ho as [Ho|[[= <- <-]|[]]]; [discriminate|repeat split; auto].
  - intros (op & Hin & -> & -> & Hne). exists op.
    rewrite In_operators. split; auto.
    destruct (Z.eqb_spec (max_reported op recs) (lines_of op recs));
      [contradiction|]. right. now left.
Qed.






(** X6. An operator with lines none of which reports a positive count is
    always reported, with the recorded maximum 0: the maximum starts from the
    0 that the first read of [maxOperatorSum] inserts. *)
Theorem operator_without_positive_count fs inputfile separator lines recs op :
  fs inputfile = Some lines ->
  parse_lines separator lines = Ok recs ->
  existsb (fun r => String.eqb (name r) op) recs = true ->
  forallb (fun r => negb (String.eqb (name r) op) || (operator_count r <=? 0))
    recs = true ->
  0 < lines_of op recs /\
  In (OperatorSumMismatch op) (stdout (parse fs inputfile separator)) /\
  In (OperatorSumValues 0 (lines_of op recs))
     (stdout (parse fs inputfile separator)).
Proof.
  intros Hf Hp Hseen Hcounts.
  assert (In op (map name recs)) as Hin.
  { apply existsb_exists in Hseen. destruct Hseen as (r & Hr & E).
    apply String.eqb_eq in E. subst op. now apply in_map. }
  assert (max_reported op recs = 0) as Hm.
  { apply Z.le_antisymm; [|apply max_reported_nonneg].
    apply max_reported_le; [lia|]. intros r Hr E.
    rewrite forallb_forall in Hcounts. specialize (Hcounts _ Hr).
    rewrite E, String.eqb_refl in Hcounts. simpl in Hcounts. lia. }
  pose proof (proj2 (lines_of_pos op recs) Hin) as Hpos.
  rewrite (parse_records _ _ _ _ _ Hf Hp). simpl.
  rewrite !In_operator_part by reflexivity.
  rewrite In_operator_part_mismatch, In_operator_part_values.
  repeat split; auto; try lia.
  exists op. repeat split; auto; lia.
Qed.

Lemma operator_without_positive_count_witness :
  In (OperatorSumValues 0 2)
     (stdout (parse (one_file "log" [ln "t,0,a,0"; ln "t,1,a,-3"]) "log" ",")).
Proof.
  exact (proj2 (proj2 (operator_without_positive_count
           (one_file "log" [ln "t,0,a,0"; ln "t,1,a,-3"])
           "log" "," _ _ "a" eq_refl eq_refl eq_refl eq_refl))).
Defined.

(** X7. On a file whose lines all convert, when [k] is the one sequence
    number of the file whose count is not the baseline, the
    per-sequence-number check prints one report, for [k], with its count and
    the baseline (a number a source failed to emit is reported so, as long
    as another source emitted it). *)
Theorem sequence_check_flags_the_mismatch
    fs inputfile separator lines recs k :
  fs inputfile = Some lines ->
  parse_lines separator lines = Ok recs ->
  0 < receipts k recs ->
  receipts k recs <> baseline recs ->
  forallb (fun k' => (k' =? k) || (receipts k' recs =? baseline recs))
    (numbers recs) = true ->
  printed_by NumberCheck (stdout (parse fs inputfile separator)) =
  [NotReceived k (receipts k recs) (baseline recs)].
Proof.
  intros Hf Hp Hpos Hne Hall.
  rewrite (parse_records _ _ _ _ _ Hf Hp). simpl. rewrite printed_by_run.
  unfold number_part, number_loop.
  rewrite flat_map_single with (x := (k, receipts k recs)).
  - destruct (Z.eqb_spec (receipts k recs) (baseline recs));
      [contradiction|reflexivity].
  - apply (NoDup_map_inv fst).
    eapply Permutation_NoDup; [|apply (NoDup_counted recs)].
    apply Permutation_map, sorted_Permutation.
  - apply In_sorted, In_counted. split; auto. right.
    now apply receipts_pos.
  - intros [k' v'] Hin Hdiff. apply In_sorted, In_counted in Hin.
    destruct Hin as [-> Hk'].
    assert (k' <> k) as Hk by (intros ->; now apply Hdiff).
    assert (receipts k' recs = baseline recs) as ->;
      [|now rewrite Z.eqb_refl].
    destruct Hk' as [->|Hk']; [reflexivity|].
    rewrite forallb_forall in Hall. apply In_numbers in Hk'.
    specialize (Hall _ Hk'). apply orb_true_iff in Hall.
    destruct Hall as [Hall|Hall]; [apply Z.eqb_eq in Hall; contradiction|].
    now apply Z.eqb_eq.
Qed.

Lemma sequence_check_flags_the_mismatch_witness :
  printed_by NumberCheck
    (stdout (parse (one_file "log" [ln "t,0,a,1"; ln "t,0,b,1"; ln "t,1,a,2";
                                     ln "t,1,b,2"; ln "t,2,a,3"])
               "log" ",")) = [NotReceived 2 1 2].
Proof.
  apply (sequence_check_flags_the_mismatch
           (one_file "log" [ln "t,0,a,1"; ln "t,0,b,1"; ln "t,1,a,2";
                            ln "t,1,b,2"; ln "t,2,a,3"])
           "log" "," _ _ 2 eq_refl eq_refl).
  - reflexivity.
  - vm_compute. discriminate.
  - reflexivity.
Defined.

(** ** The state the scan leaves *)

Lemma In_items_value {K : Type} `{EqKey K} (k : K) (v : Z) (d : DD.t K) :
  NoDup (DD.keys d) ->
  In (k, v) d <-> In k (DD.keys d) /\ v = DD.value k d.
Proof.
  intros ND. rewrite value_lookup. split.
  - intros Hin. rewrite (In_items_lookup _ _ _ ND Hin). split; auto.
    change k with (fst (k, v)). now apply in_map.
  - intros [Hk ->]. apply lookup_In_items. apply lookup_In_keys in Hk.
    now destruct (DD.lookup k d).
Qed.

Lemma max_seen_In recs :
  max_seen recs = 0 \/ In (max_seen recs) (map number recs).
Proof.
  induction recs as [|r recs IH] using rev_ind; [now left|].
  rewrite max_seen_snoc, map_app, in_app_iff. simpl.
  destruct (Z.max_spec (max_seen recs) (number r)) as [[_ ->]|[_ ->]];
    tauto.
Qed.

Lemma numberCount_sum recs :
  sum (DD.values (numberCount (process recs initial))) =
  Z.of_nat (List.length recs).
Proof.
  induction recs as [|r recs IH] using rev_ind; [reflexivity|].
  rewrite process_snoc, length_app. unfold update.
  destruct (DD.getitem (name r) (maxOperatorSum (process recs initial))).
  simpl. rewrite sum_values_incr, IH. lia.
Qed.

Lemma sum_constant (b : Z) (l : list Z) :
  (forall x, In x l -> x = b) -> sum l = b * Z.of_nat (List.length l).
Proof.
  induction l as [|x l IH]; intros Hall.
  - simpl. unfold sum. simpl. lia.
  - rewrite sum_cons, IH by (intros; apply Hall; now right).
    rewrite (Hall x) by now left. simpl List.length. lia.
Qed.

Lemma number_loop_nil_inv items n k v :
  number_loop items n = [] -> In (k, v) items -> v = n.
Proof.
  intros E Hin. destruct (Z.eq_dec v n) as [|Hne]; auto.
  assert (In (NotReceived k v n) (number_loop items n)) as Habs
    by (apply In_number_loop; auto).
  rewrite E in Habs. contradiction.
Qed.

(** X8. After a scan the checks leave both operator dictionaries and the
    line count as they are: the reads [maxOperatorSum[operator]] and
    [totalOperatorCounts[operator]] of the operator loop find their keys.
    The checks change [max_number], by one, and [numberCount], by the key 1
    with count 0 when no line had sequence number 1. *)
Theorem checks_state_change separator lines s :
  scan separator lines initial = Ok s ->
  totalOperatorCounts (snd (checks s)) = totalOperatorCounts s /\
  maxOperatorSum (snd (checks s)) = maxOperatorSum s /\
  total_lines (snd (checks s)) = total_lines s /\
  max_number (snd (checks s)) = max_number s + 1 /\
  numberCount (snd (checks s)) =
    match DD.lookup 1 (numberCount s) with
    | Some _ => numberCount s
    | None => numberCount s ++ [(1, 0)]
    end.
Proof.
  intros Hs. destruct (scan_Ok_parse_lines _ _ _ _ Hs) as (recs & _ & ->).
  rewrite (checks_agrees _ _ (agrees_process recs)). simpl.
  repeat split. unfold DD.getitem.
  now destruct (DD.lookup 1 (numberCount (process recs initial))).
Qed.

Lemma checks_state_change_witness :
  exists s,
    scan "," [ln "t,0,a,1"; ln "t,2,b,1"] initial = Ok s /\
    numberCount (snd (checks s)) = [(0, 1); (2, 1); (1, 0)].
Proof.
  eexists. split; [reflexivity|].
  destruct (checks_state_change "," [ln "t,0,a,1"; ln "t,2,b,1"] _ eq_refl)
    as (_ & _ & _ & _ & Hn).
  rewrite Hn. reflexivity.
Defined.

(** X9. After a scan [max_number] is not negative, is at least every
    sequence number of the file, and is 0 or one of them: sequence numbers
    below 0 leave it at its initial 0. *)
Theorem max_number_bounds separator lines recs :
  parse_lines separator lines = Ok recs ->
  exists s,
    scan separator lines initial = Ok s /\
    0 <= max_number s /\
    (forall r, In r recs -> number r <= max_number s) /\
    (max_number s = 0 \/ In (max_number s) (map number recs)).
Proof.
  intros Hp. exists (process recs initial).
  split; [now apply scan_parse_lines|].
  rewrite (number_max _ _ (agrees_process recs)).
  split; [apply max_seen_nonneg|].
  split; [apply max_seen_ge|apply max_seen_In].
Qed.

Lemma max_number_bounds_witness :
  exists s,
    scan "," [ln "t,-4,a,1"; ln "t,-2,a,2"] initial = Ok s /\
    max_number s = 0.
Proof.
  destruct (max_number_bounds "," [ln "t,-4,a,1"; ln "t,-2,a,2"] _ eq_refl)
    as (s & Hs & _ & _ & Hm).
  exists s. split; [exact Hs|].
  injection Hs as <-. reflexivity.
Defined.

(** X10. After a scan the two operator dictionaries have the same keys in
    the same order, no key twice; the items of [totalOperatorCounts] are the
    operators of the file with their numbers of lines, those of
    [maxOperatorSum] the operators with their recorded maxima, those of
    [numberCount] the sequence numbers of the file with their counts; every
    stored line count is positive. *)
Theorem scan_dictionaries separator lines recs :
  parse_lines separator lines = Ok recs ->
  exists s,
    scan separator lines initial = Ok s /\
    DD.keys (maxOperatorSum s) = DD.keys (totalOperatorCounts s) /\
    NoDup (DD.keys (totalOperatorCounts s)) /\
    NoDup (DD.keys (numberCount s)) /\
    (forall op c,
       In (op, c) (totalOperatorCounts s) <->
       In op (map name recs) /\ c = lines_of op recs) /\
    (forall op m,
       In (op, m) (maxOperatorSum s) <->
       In op (map name recs) /\ m = max_reported op recs) /\
    (forall k c,
       In (k, c) (numberCount s) <->
       In k (map number recs) /\ c = receipts k recs) /\
    (forall op c, In (op, c) (totalOperatorCounts s) -> 0 < c) /\
    (forall k c, In (k, c) (numberCount s) -> 0 < c).
Proof.
  intros Hp. exists (process recs initial).
  pose proof (agrees_process recs) as A.
  assert (NoDup (DD.keys (totalOperatorCounts (process recs initial))))
    as NDt by (rewrite (toc_keys _ _ A); apply NoDup_operators).
  assert (NoDup (DD.keys (maxOperatorSum (process recs initial))))
    as NDm by (rewrite (mos_keys _ _ A); apply NoDup_operators).
  assert (NoDup (DD.keys (numberCount (process recs initial))))
    as NDn by (rewrite (nc_keys _ _ A); apply NoDup_numbers).
  assert (forall op c,
            In (op, c) (totalOperatorCounts (process recs initial)) <->
            In op (map name recs) /\ c = lines_of op recs) as Ht.
  { intros op c. rewrite (In_items_value _ _ _ NDt).
    now rewrite (toc_keys _ _ A), (toc_value _ _ A), In_operators. }
  assert (forall k c,
            In (k, c) (numberCount (process recs initial)) <->
            In k (map number recs) /\ c = receipts k recs) as Hn.
  { intros k c. rewrite (In_items_value _ _ _ NDn).
    now rewrite (nc_keys _ _ A), (nc_value _ _ A), In_numbers. }
  split; [now apply scan_parse_lines|].
  split; [now rewrite (mos_keys _ _ A), (toc_keys _ _ A)|].
  split; [exact NDt|]. split; [exact NDn|]. split; [exact Ht|].
  split; [|split; [exact Hn|split]].
  - intros op m. rewrite (In_items_value _ _ _ NDm).
    now rewrite (mos_keys _ _ A), (mos_value _ _ A), In_operators.
  - intros op c Hin. apply Ht in Hin. destruct Hin as [Hin ->].
    now apply lines_of_pos.
  - intros k c Hin. apply Hn in Hin. destruct Hin as [Hin ->].
    now apply receipts_pos.
Qed.

Lemma scan_dictionaries_witness :
  exists s,
    scan "," [ln "t,5,b,1"; ln "t,5,a,7"; ln "t,0,b, 2"] initial = Ok s /\
    DD.keys (maxOperatorSum s) = DD.keys (totalOperatorCounts s).
Proof.
  destruct (scan_dictionaries ","
              [ln "t,5,b,1"; ln "t,5,a,7"; ln "t,0,b, 2"] _ eq_refl)
    as (s & Hs & Hk & _).
  exists s. split; [exact Hs | exact Hk].
Defined.

(** X11. On a file whose lines all convert, after every processed line the
    total line count is the sum of the counts of [numberCount]: every line
    adds one to exactly one sequence number. *)
Theorem total_is_sum_of_receipts separator lines recs :
  parse_lines separator lines = Ok recs ->
  forall n, exists s,
    scan separator (firstn n lines) initial = Ok s /\
    total_lines s = sum (DD.values (numberCount s)).
Proof.
  intros Hp n. exists (process (firstn n recs) initial).
  split; [apply scan_parse_lines; now apply parse_lines_firstn|].
  rewrite numberCount_sum.
  apply (lines_total _ _ (agrees_process (firstn n recs))).
Qed.

Lemma total_is_sum_of_receipts_witness :
  exists s,
    scan "," (firstn 2 [ln "t,0,a,1"; ln "t,0,b,1"; ln "t,1,a,2"]) initial
    = Ok s /\
    total_lines s = sum (DD.values (numberCount s)).
Proof.
  exact (total_is_sum_of_receipts ","
           [ln "t,0,a,1"; ln "t,0,b,1"; ln "t,1,a,2"] _ eq_refl 2%nat).
Defined.

Lemma silent_number_part recs :
  recs <> [] -> number_part recs = [] ->
  0 < baseline recs /\
  (forall k, In k (map number recs) -> receipts k recs = baseline recs) /\
  Z.of_nat (List.length recs) =
  baseline recs * Z.of_nat (List.length (numbers recs)).
Proof.
  intros Hne Hsilent. pose proof (agrees_process recs) as A.
  assert (forall k, In k (map number recs) -> receipts k recs = baseline recs)
    as Hall.
  { intros k Hk. apply (number_loop_nil_inv _ _ k _ Hsilent).
    apply In_sorted, In_counted. auto. }
  split; [|split; [exact Hall|]].
  - destruct recs as [|r recs']; [contradiction|].
    rewrite <- (Hall (number r)) by now left.
    apply receipts_pos. now left.
  - rewrite <- numberCount_sum, <- (nc_keys _ _ A).
    unfold DD.keys, DD.values. rewrite (length_map fst), <- (length_map snd).
    apply sum_constant. intros v Hv. apply in_map_iff in Hv.
    destruct Hv as ([k c] & <- & Hin). simpl.
    apply In_items_value in Hin;
      [|rewrite (nc_keys _ _ A); apply NoDup_numbers].
    destruct Hin as [Hk ->].
    rewrite (nc_value _ _ A). apply Hall.
    rewrite (nc_keys _ _ A) in Hk. now apply In_numbers.
Qed.

Lemma parse_lines_nonempty separator lines recs :
  parse_lines separator lines = Ok recs -> lines <> [] -> recs <> [].
Proof.
  intros Hp Hne ->. apply parse_lines_length in Hp.
  destruct lines; [contradiction|discriminate].
Qed.

Lemma distinct_numbers recs :
  List.length (nodup Z.eq_dec (map number recs)) =
  List.length (numbers recs).
Proof.
  apply Permutation_length, NoDup_Permutation.
  - apply NoDup_nodup.
  - apply NoDup_numbers.
  - intros k. now rewrite nodup_In, In_numbers.
Qed.

(** X12. When the per-sequence-number check of a file with lines reports
    nothing, the range check reports exactly when the number of distinct
    sequence numbers of the file is not the largest of them plus one: with
    equal counts everywhere, the range check is what finds a sequence number
    that no source emitted. *)
Theorem range_check_finds_missing_numbers
    fs inputfile separator lines recs :
  fs inputfile = Some lines ->
  parse_lines separator lines = Ok recs ->
  lines <> [] ->
  printed_by NumberCheck (stdout (parse fs inputfile separator)) = [] ->
  printed_by RangeCheck (stdout (parse fs inputfile separator)) = [] <->
  Z.of_nat (List.length (nodup Z.eq_dec (map number recs))) =
  max_seen recs + 1.
Proof.
  intros Hf Hp Hne. rewrite (parse_records _ _ _ _ _ Hf Hp). simpl.
  rewrite !printed_by_run. intros Hsilent.
  destruct (silent_number_part _ (parse_lines_nonempty _ _ _ Hp Hne) Hsilent)
    as (Hb & _ & Htotal).
  rewrite distinct_numbers. unfold range_part. cbv zeta. rewrite Htotal.
  destruct (Z.eqb_spec (baseline recs * Z.of_nat (List.length (numbers recs)))
              ((max_seen recs + 1) * baseline recs)) as [E|E].
  - split; auto. intros _. nia.
  - split; [discriminate|]. intros E'. exfalso. apply E. rewrite E'. lia.
Qed.

Lemma range_check_finds_missing_numbers_witness :
  printed_by RangeCheck
    (stdout (parse (one_file "log" [ln "t,1,a,1"; ln "t,3,a,2"]) "log" ","))
  = [] <-> 2 = 3 + 1.
Proof.
  apply (range_check_finds_missing_numbers
           (one_file "log" [ln "t,1,a,1"; ln "t,3,a,2"])
           "log" "," _ _ eq_refl eq_refl).
  - discriminate.
  - reflexivity.
Defined.

(** ** What a run does not depend on *)

Lemma lines_of_Permutation op recs recs' :
  Permutation recs recs' -> lines_of op recs = lines_of op recs'.
Proof.
  unfold lines_of.
  induction 1 as [|r rs rs' P IH|r1 r2 rs|? ? ? ? IH1 ? IH2]; simpl; auto.
  - destruct (String.eqb (name r) op); simpl; lia.
  - destruct (String.eqb (name r1) op), (String.eqb (name r2) op); simpl; lia.
  - lia.
Qed.

Lemma max_reported_incl op recs recs' :
  (forall r, In r recs -> In r recs') ->
  max_reported op recs <= max_reported op recs'.
Proof.
  intros Hincl. apply max_reported_le; [apply max_reported_nonneg|].
  intros r Hr E. apply max_reported_ge; auto.
Qed.

Lemma max_reported_Permutation op recs recs' :
  Permutation recs recs' -> max_reported op recs = max_reported op recs'.
Proof.
  intros P. apply Z.le_antisymm; apply max_reported_incl; intros r;
    apply Permutation_in; [|symmetry]; exact P.
Qed.

Lemma max_seen_Permutation recs recs' :
  Permutation recs recs' -> max_seen recs = max_seen recs'.
Proof.
  intros P. apply Z.le_antisymm; (apply max_seen_le; [apply max_seen_nonneg|]);
    intros r Hr; apply max_seen_ge; revert Hr; apply Permutation_in;
    [|symmetry]; exact P.
Qed.

Lemma operators_Permutation recs recs' :
  Permutation recs recs' -> Permutation (operators recs) (operators recs').
Proof.
  intros P. apply NoDup_Permutation; try apply NoDup_operators.
  intros op. rewrite !In_operators.
  split; apply Permutation_in; [|symmetry]; now apply Permutation_map.
Qed.

Lemma operator_part_Permutation recs recs' :
  Permutation recs recs' ->
  Permutation (operator_part recs) (operator_part recs').
Proof.
  intros P. unfold operator_part.
  rewrite (flat_map_ext _
             (fun op =>
                if max_reported op recs' =? lines_of op recs' then []
                else [OperatorSumMismatch op;
                      OperatorSumValues (max_reported op recs')
                        (lines_of op recs')])).
  - apply Permutation_flat_map, operators_Permutation, P.
  - intros op.
    now rewrite (max_reported_Permutation op _ _ P),
      (lines_of_Permutation op _ _ P).
Qed.

Lemma range_part_Permutation recs recs' :
  Permutation recs recs' -> range_part recs = range_part recs'.
Proof.
  intros P. unfold range_part, baseline.
  now rewrite (Permutation_length P), (max_seen_Permutation _ _ P),
    (receipts_Permutation 1 _ _ P).
Qed.

(** X13. The order of the lines of a file matters to the output in one
    respect only, the order in which the operator-count reports follow each
    other: for every other order of the lines the run prints the same
    operator-count reports in some order, and the same reports of every
    other check and the same summary. *)
Theorem line_order_moves_operator_reports_only
    fs inputfile separator lines recs :
  fs inputfile = Some lines ->
  parse_lines separator lines = Ok recs ->
  forall fs' lines',
    fs' inputfile = Some lines' -> Permutation lines lines' ->
    Permutation
      (printed_by OperatorCheck (stdout (parse fs inputfile separator)))
      (printed_by OperatorCheck (stdout (parse fs' inputfile separator))) /\
    (forall c, c <> OperatorCheck ->
       printed_by c (stdout (parse fs' inputfile separator)) =
       printed_by c (stdout (parse fs inputfile separator))) /\
    status_of (parse fs' inputfile separator) =
    status_of (parse fs inputfile separator).
Proof.
  intros Hf Hp fs' lines' Hf' P.
  destruct (parse_lines_Permutation _ _ _ _ P Hp) as (recs' & Hp' & Q).
  rewrite (parse_records _ _ _ _ _ Hf Hp), (parse_records _ _ _ _ _ Hf' Hp').
  simpl. rewrite !printed_by_run. split; [|split; [|reflexivity]].
  - now apply operator_part_Permutation.
  - intros c Hc. rewrite !printed_by_run.
    rewrite (number_part_Permutation _ _ Q), (range_part_Permutation _ _ Q),
      (Permutation_length Q).
    destruct c; auto. contradiction.
Qed.

Lemma line_order_moves_operator_reports_only_witness :
  printed_by NumberCheck
    (stdout (parse (one_file "log" [ln "t,1,b,4"; ln "t,0,a,3"]) "log" ","))
  = printed_by NumberCheck
      (stdout (parse (one_file "log" [ln "t,0,a,3"; ln "t,1,b,4"]) "log" ",")).
Proof.
  destruct (line_order_moves_operator_reports_only
              (one_file "log" [ln "t,0,a,3"; ln "t,1,b,4"]) "log" "," _ _
              eq_refl eq_refl
              (one_file "log" [ln "t,1,b,4"; ln "t,0,a,3"])
              [ln "t,1,b,4"; ln "t,0,a,3"] eq_refl (perm_swap _ _ _))
    as (_ & Hc & _).
  apply Hc. discriminate.
Defined.

Example operator_reports_follow_the_file :
  flagged_operators
    (stdout (parse (one_file "log" [ln "t,0,a,3"; ln "t,1,b,4"]) "log" ","))
  = ["a"; "b"] /\
  flagged_operators
    (stdout (parse (one_file "log" [ln "t,1,b,4"; ln "t,0,a,3"]) "log" ","))
  = ["b"; "a"].
Proof. split; vm_compute; reflexivity. Qed.

Lemma update_counted_fields r r' s :
  counted_fields r = counted_fields r' -> update r s = update r' s.
Proof.
  unfold counted_fields, update. intros [= -> -> ->]. reflexivity.
Qed.

Lemma process_counted_fields recs : forall recs' s,
  map counted_fields recs = map counted_fields recs' ->
  process recs s = process recs' s.
Proof.
  induction recs as [|r recs IH]; intros [|r' recs'] s; simpl;
    try discriminate; auto.
  intros [= E1 E2 E3 Erest].
  rewrite (update_counted_fields r r' s)
    by (unfold counted_fields; congruence).
  now apply IH.
Qed.

(** X14. What a run prints depends on the sequence numbers, the stripped
    names and the counts of the lines, in file order, and on nothing else:
    neither on the timestamps nor on the separator or the spacing that the
    lines were written with. *)
Theorem run_depends_on_counted_fields
    fs fs' inputfile inputfile' separator separator' lines lines' recs recs' :
  fs inputfile = Some lines ->
  fs' inputfile' = Some lines' ->
  parse_lines separator lines = Ok recs ->
  parse_lines separator' lines' = Ok recs' ->
  map counted_fields recs = map counted_fields recs' ->
  stdout (parse fs inputfile separator) =
  stdout (parse fs' inputfile' separator') /\
  status_of (parse fs inputfile separator) =
  status_of (parse fs' inputfile' separator').
Proof.
  intros Hf Hf' Hp Hp' E. unfold parse. rewrite Hf, Hf'.
  rewrite (scan_parse_lines _ _ _ initial Hp),
    (scan_parse_lines _ _ _ initial Hp').
  rewrite (process_counted_fields _ _ _ E). simpl. auto.
Qed.

Lemma run_depends_on_counted_fields_witness :
  stdout (parse (one_file "a.csv" [ln "09:00,0,src,1"; ln "09:01,2,src,2"])
            "a.csv" ",") =
  stdout (parse (one_file "b.txt" [ln "x; 0 ; src ;1"; ln "y;2;src; 2"])
            "b.txt" ";").
Proof.
  exact (proj1 (run_depends_on_counted_fields
                  (one_file "a.csv" [ln "09:00,0,src,1"; ln "09:01,2,src,2"])
                  (one_file "b.txt" [ln "x; 0 ; src ;1"; ln "y;2;src; 2"])
                  "a.csv" "b.txt" "," ";" _ _ _ _
                  eq_refl eq_refl eq_refl eq_refl eq_refl)).
Defined.

(** ** Lines with a separator of one character *)

Lemma startswith_char c a s :
  PyStr.startswith (String c "") (String a s) = Ascii.eqb a c.
Proof. simpl. now rewrite andb_true_r, Ascii.eqb_sym. Qed.

Lemma split_from_char c a s :
  PyStr.split_from (String c "") 0 (String a s) =
  if Ascii.eqb a c
  then EmptyString :: PyStr.split_from (String c "") 0 s
  else match PyStr.split_from (String c "") 0 s with
       | f :: fs => String a f :: fs
       | [] => [String a EmptyString]
       end.
Proof.
  change (PyStr.split_from (String c "") 0 (String a s)) with
    (if PyStr.startswith (String c "") (String a s)
     then EmptyString :: PyStr.split_from (String c "") 0 s
     else match PyStr.split_from (String c "") 0 s with
          | f :: fs => String a f :: fs
          | [] => [String a EmptyString]
          end).
  now rewrite startswith_char.
Qed.

Lemma split_from_char_free c f :
  occurrences c f = 0%nat -> PyStr.split_from (String c "") 0 f = [f].
Proof.
  induction f as [|a f IH]; [reflexivity|].
  rewrite split_from_char. cbn [occurrences].
  destruct (Ascii.eqb a c); [discriminate|].
  intros Hf. now rewrite IH.
Qed.

Lemma split_from_char_field c f rest :
  occurrences c f = 0%nat ->
  PyStr.split_from (String c "") 0 (f ++ String c rest)%string =
  f :: PyStr.split_from (String c "") 0 rest.
Proof.
  induction f as [|a f IH].
  - intros _. change (EmptyString ++ String c rest)%string
      with (String c rest).
    now rewrite split_from_char, Ascii.eqb_refl.
  - change (String a f ++ String c rest)%string
      with (String a (f ++ String c rest)).
    rewrite split_from_char. cbn [occurrences].
    destruct (Ascii.eqb a c); [discriminate|].
    intros Hf. now rewrite IH.
Qed.

Lemma split_from_char_length c s :
  List.length (PyStr.split_from (String c "") 0 s) = S (occurrences c s).
Proof.
  induction s as [|a s IH]; [reflexivity|].
  rewrite split_from_char. cbn [occurrences].
  destruct (Ascii.eqb a c); simpl.
  - now rewrite IH.
  - destruct (PyStr.split_from (String c "") 0 s); simpl in *; lia.
Qed.

(** X15. A line made of four fields joined by a separator of one character
    that occurs in none of them converts, when its second and fourth field
    are integer literals, to the record of the first field, the two integers
    and the third field stripped of the white space around it. *)
Theorem parse_line_of_fields c f1 f2 f3 f4 n m :
  occurrences c f1 = 0%nat ->
  occurrences c f2 = 0%nat ->
  occurrences c f3 = 0%nat ->
  occurrences c f4 = 0%nat ->
  PyStr.int f2 = Some n ->
  PyStr.int f4 = Some m ->
  parse_line (String c "")
    (f1 ++ String c (f2 ++ String c (f3 ++ String c f4)))%string =
  Ok {| timestamp := f1; number := n; name := PyStr.strip f3;
        operator_count := m |}.
Proof.
  intros H1 H2 H3 H4 Hn Hm. unfold parse_line, PyStr.split.
  rewrite (split_from_char_field _ _ _ H1), (split_from_char_field _ _ _ H2),
    (split_from_char_field _ _ _ H3), (split_from_char_free _ _ H4).
  simpl. rewrite Hn. simpl. rewrite Hm. reflexivity.
Qed.

Lemma parse_line_of_fields_witness :
  parse_line "," (ln "2017-05-01 10:00:00, 17 , Source (1/4) ,3") =
  Ok {| timestamp := "2017-05-01 10:00:00"; number := 17;
        name := "Source (1/4)"; operator_count := 3 |}.
Proof.
  exact (parse_line_of_fields ","%char "2017-05-01 10:00:00" " 17 "
           " Source (1/4) " (ln "3") 17 3
           eq_refl eq_refl eq_refl eq_refl eq_refl eq_refl).
Defined.

(** X16. With a separator of one character, a line in which the separator
    does not occur exactly three times is malformed: the loop body raises
    [ValueError] on it, whatever its fields are. *)
Theorem line_needs_three_separators c l :
  occurrences c l <> 3%nat ->
  malformed (String c "") l = true /\
  parse_line (String c "") l = Raise ValueError.
Proof.
  intros Hocc.
  assert (malformed (String c "") l = true) as Hm.
  { unfold malformed, PyStr.split.
    pose proof (split_from_char_length c l) as Hlen.
    destruct (PyStr.split_from (String c "") 0 l)
      as [|g1 [|g2 [|g3 [|g4 [|g5 gs]]]]]; simpl in Hlen; auto.
    exfalso. apply Hocc. lia. }
  split; [exact Hm | now apply parse_line_malformed].
Qed.

Lemma line_needs_three_separators_witness :
  parse_line "," (ln "t,0,Map, Filter,2") = Raise ValueError.
Proof.
  apply (line_needs_three_separators ","%char (ln "t,0,Map, Filter,2")).
  vm_compute. discriminate.
Defined.

(** ** A run that reports nothing *)

Lemma part_of_silent_run c recs n :
  c <> Summary ->
  operator_part recs ++ number_part recs ++ range_part recs ++
    [SawLines (Z.of_nat (List.length recs))] = [SawLines n] ->
  match c with
  | OperatorCheck => operator_part recs
  | NumberCheck => number_part recs
  | RangeCheck => range_part recs
  | Summary => [SawLines (Z.of_nat (List.length recs))]
  | _ => []
  end = [].
Proof.
  intros Hc E. rewrite <- (printed_by_run c recs), E.
  destruct c; auto. contradiction.
Qed.

Lemma numbers_fill_the_range recs :
  (forall r, In r recs -> 0 <= number r) ->
  Z.of_nat (List.length (numbers recs)) = max_seen recs + 1 ->
  forall k, 0 <= k <= max_seen recs -> In k (map number recs).
Proof.
  intros Hpos Hlen k Hk. apply In_numbers.
  apply (@NoDup_length_incl Z (numbers recs)
           (map Z.of_nat (seq 0 (Z.to_nat (max_seen recs + 1))))).
  - apply NoDup_numbers.
  - rewrite length_map, length_seq. lia.
  - intros j Hj. apply In_numbers in Hj. apply in_map_iff in Hj.
    destruct Hj as (r & <- & Hr).
    pose proof (Hpos _ Hr). pose proof (max_seen_ge _ _ Hr).
    apply in_map_iff. exists (Z.to_nat (number r)). split; [lia|].
    apply in_seq. lia.
  - apply in_map_iff. exists (Z.to_nat k). split; [lia|].
    apply in_seq. lia.
Qed.

(** X17. The converse of the happy path.  When a run over a file with lines,
    none with a negative sequence number, prints the summary and nothing
    else, the log is complete: every sequence number from 0 to the largest
    has as many lines as the sequence number 1, which has some; every
    operator's largest count is the number of its lines; and the file has
    that many lines times the largest sequence number plus one. *)
Theorem silent_run_means_complete_log fs inputfile separator lines recs :
  fs inputfile = Some lines ->
  parse_lines separator lines = Ok recs ->
  lines <> [] ->
  forallb (fun r => 0 <=? number r) recs = true ->
  stdout (parse fs inputfile separator) =
    [SawLines (Z.of_nat (List.length lines))] ->
  0 < baseline recs /\
  1 <= max_seen recs /\
  (forall k, 0 <= k <= max_seen recs -> receipts k recs = baseline recs) /\
  (forall op, max_reported op recs = lines_of op recs) /\
  Z.of_nat (List.length lines) = baseline recs * (max_seen recs + 1).
Proof.
  intros Hf Hp Hne Hpos. rewrite (parse_records _ _ _ _ _ Hf Hp). simpl.
  intros Hout.
  pose proof (part_of_silent_run OperatorCheck _ _ ltac:(discriminate) Hout)
    as Hop.
  pose proof (part_of_silent_run NumberCheck _ _ ltac:(discriminate) Hout)
    as Hnum.
  pose proof (part_of_silent_run RangeCheck _ _ ltac:(discriminate) Hout)
    as Hrange.
  destruct (silent_number_part _ (parse_lines_nonempty _ _ _ Hp Hne) Hnum)
    as (Hb & Hall & Htotal).
  unfold range_part in Hrange. cbv zeta in Hrange.
  destruct (Z.eqb_spec (Z.of_nat (List.length recs))
              ((max_seen recs + 1) * baseline recs)) as [E|E];
    [clear Hrange|discriminate].
  assert (Z.of_nat (List.length (numbers recs)) = max_seen recs + 1) as Hd
    by nia.
  rewrite forallb_forall in Hpos.
  assert (forall r, In r recs -> 0 <= number r) as Hpos'
    by (intros r Hr; specialize (Hpos _ Hr); lia).
  split; [exact Hb|]. split; [|split; [|split]].
  - assert (In 1 (map number recs)) as H1 by (apply receipts_pos; exact Hb).
    apply in_map_iff in H1. destruct H1 as (r & E1 & Hr).
    rewrite <- E1. now apply max_seen_ge.
  - intros k Hk. apply Hall. now apply numbers_fill_the_range.
  - intros op. destruct (in_dec string_dec op (map name recs)) as [Hin|Hn].
    + destruct (Z.eq_dec (max_reported op recs) (lines_of op recs))
        as [|Hdiff]; auto.
      assert (In (OperatorSumMismatch op) (operator_part recs)) as Habs
        by (apply In_operator_part_mismatch; auto).
      rewrite Hop in Habs. contradiction.
    + destruct (unseen_operator _ _ Hn). congruence.
  - rewrite <- (parse_lines_length _ _ _ Hp). lia.
Qed.

Lemma silent_run_means_complete_log_witness :
  0 < baseline
        [ {| timestamp := "t"; number := 1; name := "a";
             operator_count := 1 |};
          {| timestamp := "t"; number := 0; name := "a";
             operator_count := 2 |} ].
Proof.
  exact (proj1 (silent_run_means_complete_log
           (one_file "log" [ln "t,1,a,1"; ln "t,0,a,2"]) "log" "," _ _
           eq_refl eq_refl ltac:(discriminate) eq_refl eq_refl)).
Defined.

(** ** Scanning one log after another *)

Lemma parse_lines_app separator lines1 lines2 recs1 recs2 :
  parse_lines separator lines1 = Ok recs1 ->
  parse_lines separator lines2 = Ok recs2 ->
  parse_lines separator (lines1 ++ lines2) = Ok (recs1 ++ recs2).
Proof.
  revert recs1. induction lines1 as [|l lines1 IH]; intros recs1; simpl.
  - now intros [= <-].
  - destruct (parse_line separator l); simpl; try discriminate.
    destruct (parse_lines separator lines1) eqn:E; simpl; try discriminate.
    intros [= <-] H2. now rewrite (IH _ eq_refl H2).
Qed.

Lemma lines_of_app op a b :
  lines_of op (a ++ b) = lines_of op a + lines_of op b.
Proof. unfold lines_of. rewrite filter_app, length_app. lia. Qed.

Lemma receipts_app k a b : receipts k (a ++ b) = receipts k a + receipts k b.
Proof. unfold receipts. rewrite filter_app, length_app. lia. Qed.

Lemma max_reported_app op a b :
  max_reported op (a ++ b) = Z.max (max_reported op a) (max_reported op b).
Proof.
  apply Z.le_antisymm.
  - apply max_reported_le.
    + pose proof (max_reported_nonneg op a). lia.
    + intros r Hr E. apply in_app_iff in Hr. destruct Hr as [Hr|Hr].
      * pose proof (max_reported_ge _ _ _ Hr E). lia.
      * pose proof (max_reported_ge _ _ _ Hr E). lia.
  - apply Z.max_lub; apply max_reported_incl; intros r Hr;
      apply in_app_iff; auto.
Qed.

Lemma max_seen_app a b : max_seen (a ++ b) = Z.max (max_seen a) (max_seen b).
Proof.
  apply Z.le_antisymm.
  - apply max_seen_le.
    + pose proof (max_seen_nonneg a). lia.
    + intros r Hr. apply in_app_iff in Hr. destruct Hr as [Hr|Hr].
      * pose proof (max_seen_ge _ _ Hr). lia.
      * pose proof (max_seen_ge _ _ Hr). lia.
  - apply Z.max_lub; (apply max_seen_le; [apply max_seen_nonneg|]);
      intros r Hr; apply max_seen_ge, in_app_iff; auto.
Qed.

(** X18. Scanning two logs one after the other, as one file, is scanning the
    second from the state the first leaves, and gives the line counts and
    the counts per operator and per sequence number of the two logs added
    up, and the larger of their two maxima for every operator and for the
    sequence numbers. *)
Theorem scan_of_concatenation separator lines1 lines2 recs1 recs2 :
  parse_lines separator lines1 = Ok recs1 ->
  parse_lines separator lines2 = Ok recs2 ->
  exists s1 s2 s,
    scan separator lines1 initial = Ok s1 /\
    scan separator lines2 initial = Ok s2 /\
    scan separator (lines1 ++ lines2) initial = Ok s /\
    scan separator lines2 s1 = Ok s /\
    total_lines s = total_lines s1 + total_lines s2 /\
    max_number s = Z.max (max_number s1) (max_number s2) /\
    (forall op,
       DD.value op (totalOperatorCounts s) =
       DD.value op (totalOperatorCounts s1) +
       DD.value op (totalOperatorCounts s2)) /\
    (forall op,
       DD.value op (maxOperatorSum s) =
       Z.max (DD.value op (maxOperatorSum s1))
             (DD.value op (maxOperatorSum s2))) /\
    (forall k,
       DD.value k (numberCount s) =
       DD.value k (numberCount s1) + DD.value k (numberCount s2)).
Proof.
  intros H1 H2.
  exists (process recs1 initial), (process recs2 initial),
    (process (recs1 ++ recs2) initial).
  pose proof (agrees_process recs1) as A1.
  pose proof (agrees_process recs2) as A2.
  pose proof (agrees_process (recs1 ++ recs2)) as A.
  split; [now apply scan_parse_lines|].
  split; [now apply scan_parse_lines|].
  split; [apply scan_parse_lines; now apply parse_lines_app|].
  split.
  { rewrite (scan_parse_lines _ _ _ _ H2). unfold process.
    now rewrite fold_left_app. }
  split.
  { rewrite (lines_total _ _ A), (lines_total _ _ A1), (lines_total _ _ A2),
      length_app. lia. }
  split.
  { rewrite (number_max _ _ A), (number_max _ _ A1), (number_max _ _ A2).
    apply max_seen_app. }
  split; [|split].
  - intros op.
    rewrite (toc_value _ _ A), (toc_value _ _ A1), (toc_value _ _ A2).
    apply lines_of_app.
  - intros op.
    rewrite (mos_value _ _ A), (mos_value _ _ A1), (mos_value _ _ A2).
    apply max_reported_app.
  - intros k.
    rewrite (nc_value _ _ A), (nc_value _ _ A1), (nc_value _ _ A2).
    apply receipts_app.
Qed.

Lemma scan_of_concatenation_witness :
  exists s1 s,
    scan "," [ln "t,0,a,1"; ln "t,1,a,2"] initial = Ok s1 /\
    scan "," [ln "t,0,b,1"; ln "t,1,b,5"] s1 = Ok s /\
    total_lines s = 4.
Proof.
  destruct (scan_of_concatenation "," [ln "t,0,a,1"; ln "t,1,a,2"]
              [ln "t,0,b,1"; ln "t,1,b,5"] _ _ eq_refl eq_refl)
    as (s1 & s2 & s & Hs1 & Hs2 & _ & Hs & Ht & _).
  exists s1, s. split; [exact Hs1|]. split; [exact Hs|].
  rewrite Ht. injection Hs1 as <-. injection Hs2 as <-. reflexivity.
Defined.
